(** * aicommits: the OpenAI client ([src/utils/openai.ts])

    A shallow embedding of the chat-completion client of aicommits: the
    raw-HTTPS transport [httpsPost], the retry loop [createChatCompletion],
    the post-processing helpers [sanitizeMessage] and [deduplicateMessages],
    the entry point [generateCommitMessage], and the SDK-backed variant of
    the entry point that toggles [NODE_TLS_REJECT_UNAUTHORIZED].

    JavaScript strings are sequences of UTF-16 code units; they are modelled
    as [list N].  Effects (network requests, sleeps, the process environment)
    are threaded through explicit state.

    Conventions of the model:
    - a request is settled by one event, the first handler of [httpsPost] to
      call [resolve] or [reject]; the network is the sequence of these
      events, one per request sent;
    - every value thrown inside the [try] block of [createChatCompletion] is
      an [Error] object, so its message is [error.message];
    - numbers that count ([retries], [attempt], status codes, milliseconds)
      are integers;
    - [JSON.parse], [JSON.stringify], [Buffer.byteLength] and the prompt
      generator of [prompt.js] are parameters ([Runtime]). *)

From Stdlib Require Import ZArith NArith List Bool Ascii String Lia.
From Stdlib Require Import Numbers.DecimalString QArith.QArith_base.
From stdpp Require Import base gmap strings.
Import ListNotations.

Local Open Scope list_scope.
Local Open Scope Z_scope.

(** ** JavaScript strings *)

(** A string value: its UTF-16 code units. *)
Abbreviation jsstring := (list N).

Module JsString.

Abbreviation t := (list N).

(** An ASCII literal. *)
Definition lit (s : string) : t :=
  List.map N_of_ascii (list_ascii_of_string s).
Arguments lit : simpl never.

(** [a === b] on strings. *)
Fixpoint eqb (a b : t) : bool :=
  match a, b with
  | [], [] => true
  | x :: a', y :: b' => N.eqb x y && eqb a' b'
  | _, _ => false
  end.

(** [s.startsWith(p)]. *)
Fixpoint startsWith (s p : t) {struct p} : bool :=
  match p, s with
  | [], _ => true
  | x :: p', y :: s' => N.eqb x y && startsWith s' p'
  | _ :: _, [] => false
  end.

(** [s.includes(sub)]: [sub] occurs somewhere in [s]. *)
Fixpoint includes (s sub : t) : bool :=
  startsWith s sub ||
  match s with
  | [] => false
  | _ :: s' => includes s' sub
  end.

(** Truthiness of a string: only the empty string is falsy. *)
Definition truthy (s : t) : bool :=
  match s with [] => false | _ :: _ => true end.

(** Number-to-string conversion of an integer, as in a template literal. *)
Definition ofZ (z : Z) : t := lit (NilZero.string_of_int (Z.to_int z)).
Arguments ofZ : simpl never.

(** WhiteSpace and LineTerminator code points of ECMAScript (all in the
    basic plane): the characters [String.prototype.trim] removes. *)
Definition isWhiteSpace (c : N) : bool :=
  (List.existsb (N.eqb c)
     [9; 10; 11; 12; 13; 32; 160; 5760; 8232; 8233; 8239; 8287; 12288; 65279]%N
   || (N.leb 8192 c && N.leb c 8202))%bool.

(** [\n] or [\r], the class [[\n\r]]. *)
Definition isNewline (c : N) : bool := (N.eqb c 10 || N.eqb c 13)%bool.

(** The class [\w] (no unicode or ignore-case flag): [[A-Za-z0-9_]]. *)
Definition isWordChar (c : N) : bool :=
  ((N.leb 48 c && N.leb c 57) || (N.leb 65 c && N.leb c 90)
   || N.eqb c 95 || (N.leb 97 c && N.leb c 122))%bool.

(** The code unit of [.]. *)
Definition dot : N := 46%N.

Fixpoint trimStart (s : t) : t :=
  match s with
  | c :: s' => if isWhiteSpace c then trimStart s' else s
  | [] => []
  end.

Definition trimEnd (s : t) : t := rev (trimStart (rev s)).

(** [s.trim()]. *)
Definition trim (s : t) : t := trimEnd (trimStart s).

(** [s.replace(/[\n\r]/g, '')]: every match of the class is deleted. *)
Definition removeNewlines (s : t) : t :=
  List.filter (fun c => negb (isNewline c)) s.

(** [s.replace(/(\w)\.$/, '$1')]: the matcher tries each start position
    from the left; a match is a word character followed by a dot followed
    by the end of the input, and is replaced by the captured character. *)
Fixpoint replaceWordDotEnd (s : t) : t :=
  match s with
  | [] => []
  | c :: rest =>
      if (isWordChar c && eqb rest [dot])%bool then [c]
      else c :: replaceWordDotEnd rest
  end.

End JsString.

Abbreviation lit := JsString.lit.

(** ** Post-processing helpers *)

(** [sanitizeMessage]: trim, delete newlines, drop a final dot after a word
    character. *)
Definition sanitizeMessage (message : jsstring) : jsstring :=
  JsString.replaceWordDotEnd (JsString.removeNewlines (JsString.trim message)).

(** A [Set] of strings keeps its elements in insertion order; [add] is a
    no-op for a value already present. *)
Module JsSet.
Definition t : Type := list jsstring.
Definition empty : t := [].
Definition has (s : t) (x : jsstring) : bool := List.existsb (JsString.eqb x) s.
Definition add (s : t) (x : jsstring) : t := if has s x then s else s ++ [x].
(** [new Set(array)] adds the elements in array order. *)
Definition ofArray (array : list jsstring) : t := fold_left add array empty.
(** [Array.from(set)] lists the elements in insertion order. *)
Definition toArray (s : t) : list jsstring := s.
End JsSet.

(** [deduplicateMessages = array => Array.from(new Set(array))]. *)
Definition deduplicateMessages (array : list jsstring) : list jsstring :=
  JsSet.toArray (JsSet.ofArray array).


(** ** Errors, responses and the engine *)

(** The classes of error objects that reach the client's [catch] blocks. *)
Inductive ErrorClass :=
| KnownError    (* the project's own error class, from [error.js] *)
| SyntaxError   (* raised by [JSON.parse] *)
| TypeError     (* raised by a property access on [undefined] *)
| SystemError.  (* a Node.js socket or DNS error *)

Record JsError := mkError {
  errClass : ErrorClass;
  message : jsstring;
  code : option jsstring;
  hostname : option jsstring;
  syscall : option jsstring
}.

(** [new KnownError(msg)] *)
Definition newKnownError (msg : jsstring) : JsError :=
  mkError KnownError msg None None None.

(** [error instanceof KnownError] *)
Definition instanceofKnownError (e : JsError) : bool :=
  match errClass e with KnownError => true | _ => false end.

(** [error.code === c] *)
Definition codeIs (e : JsError) (c : jsstring) : bool :=
  match code e with Some c' => JsString.eqb c' c | None => false end.

(** A possibly [undefined] value inside a template literal. *)
Definition showOpt (o : option jsstring) : jsstring :=
  match o with Some s => s | None => lit "undefined" end.

(** The result of settling a promise or running a [try] body. *)
Inductive Result (A : Type) :=
| Ok (a : A)
| Throw (e : JsError).
Arguments Ok {A} a.
Arguments Throw {A} e.

(** [CreateChatCompletionResponse], as far as the client reads it. *)
Record Message := { content : option jsstring }.
Record Choice := { choiceMessage : option Message }.
Record Completion := { choices : option (list Choice) }.

(** [CreateChatCompletionRequest] *)
Module Req.
Record ChatMessage := { role : jsstring; content : jsstring }.
Record t := {
  model : jsstring;
  messages : list ChatMessage;
  temperature : Q;
  top_p : Q;
  frequency_penalty : Q;
  presence_penalty : Q;
  max_tokens : Z;
  stream : bool;
  n : Z
}.
End Req.
Abbreviation ChatCompletionRequest := Req.t.

(** What the JavaScript engine and the sibling modules provide.
    [JSON_parse] either yields the parsed completion or raises a
    [SyntaxError] whose message is the engine's. *)
Record Runtime := {
  JSON_stringify : ChatCompletionRequest -> jsstring;
  JSON_parse : jsstring -> Completion + jsstring;
  Buffer_byteLength : jsstring -> Z;
  (** the message of the [TypeError] for calling a method on [undefined] *)
  undefinedMethodMessage : jsstring -> jsstring;
  generatePrompt : jsstring -> Z -> jsstring -> jsstring
}.

(** ** The transport: [httpsPost] *)

Inductive Agent := HttpsProxyAgent (proxy : jsstring).

Record RequestOptions := {
  port : Z;
  optHostname : jsstring;
  path : jsstring;
  method : jsstring;
  headers : gmap jsstring jsstring;
  optTimeout : Z;
  agent : option Agent;
  secureProtocol : jsstring;
  rejectUnauthorized : bool;
  keepAlive : bool;
  keepAliveMsecs : Z
}.

Record IncomingMessage := {
  statusCode : option Z;
  statusMessage : option jsstring
}.

(** The event that settles the promise of one [httpsPost] call: the
    first of the handlers registered on the request to call [resolve] or
    [reject].  [SocketError] is the listener the source adds to the socket.
    In Node.js the listener of the http module stands before it on the
    socket and passes the error on to the request, so that an error of the
    connection settles the promise as a [RequestError]; the sample runs
    below use the other three events only. *)
Inductive TransportEvent :=
| ResponseEnd (response : IncomingMessage) (data : jsstring)
| RequestError (error : JsError)
| RequestTimeout
| SocketError (error : JsError).

(** Observable effects of the client, in order. *)
Inductive Effect :=
| Request (options : RequestOptions) (postContent : jsstring)
| Sleep (ms : Z).

(** The world: how many requests were sent, and the effects so far. *)
Record World := { sent : nat; log : list Effect }.

Definition initialWorld : World := {| sent := 0%nat; log := [] |}.

(** Computations that read and extend the world. *)
Definition IO (A : Type) : Type := World -> A * World.

#[global] Instance IO_ret : MRet IO := fun A a w => (a, w).
#[global] Instance IO_bind : MBind IO :=
  fun A B k m w => let (a, w') := m w in k a w'.

(** [await new Promise(resolve => setTimeout(resolve, delay))] *)
Definition sleep (ms : Z) : IO unit :=
  fun w => (tt, {| sent := sent w; log := log w ++ [Sleep ms] |}).

Definition nl : jsstring := [10%N].
Definition bullet : jsstring := [8226%N].

Definition tlsConnectionFailedMessage : jsstring :=
  lit "TLS connection failed. This could be due to:" ++ nl ++
  lit "  " ++ bullet ++ lit " Network connectivity issues" ++ nl ++
  lit "  " ++ bullet ++ lit " Proxy or firewall blocking the connection" ++ nl ++
  lit "  " ++ bullet ++ lit " Corporate network restrictions" ++ nl ++
  lit "  " ++ bullet ++ lit " DNS resolution problems" ++ nl ++ nl ++
  lit "Try:" ++ nl ++
  lit "  " ++ bullet ++ lit " Checking your internet connection" ++ nl ++
  lit "  " ++ bullet ++ lit " Configuring a proxy if needed: aicommits config set proxy=<proxy-url>" ++ nl ++
  lit "  " ++ bullet ++ lit " Increasing timeout: aicommits config set timeout=<milliseconds>" ++ nl ++
  lit "  " ++ bullet ++ lit " Using a different network".

(** The message of the error raised by the [timeout] handler. *)
Definition timeoutMessage (timeout : Z) : jsstring :=
  lit "Request timed out after " ++ JsString.ofZ timeout ++
  lit "ms. Try increasing the timeout with: aicommits config set timeout=<milliseconds> or check the OpenAI API status at https://status.openai.com".

(** The handler of the request's [error] event. *)
Definition onRequestError (hostname : jsstring) (error : JsError) : JsError :=
  let errorMessage :=
    if codeIs error (lit "ECONNRESET") then
      lit "Connection was reset by the server. This might be due to network issues or server overload."
    else if codeIs error (lit "ENOTFOUND") then
      lit "Cannot resolve hostname " ++ hostname ++ lit ". Please check your internet connection."
    else if codeIs error (lit "ETIMEDOUT") then
      lit "Connection timed out. Please check your network connection and try again."
    else if codeIs error (lit "ECONNREFUSED") then
      lit "Connection refused by " ++ hostname ++ lit ". The server might be down or unreachable."
    else if (codeIs error (lit "CERT_HAS_EXPIRED")
             || codeIs error (lit "UNABLE_TO_VERIFY_LEAF_SIGNATURE"))%bool then
      lit "SSL certificate verification failed. This might be due to an outdated certificate or network security settings."
    else if JsString.includes (message error)
              (lit "socket disconnected before secure TLS connection was established") then
      lit "TLS handshake failed. This could be due to network issues, proxy settings, or firewall restrictions. Try checking your network configuration or using a different network."
    else message error in
  newKnownError errorMessage.

(** The handler of the socket's [error] event. *)
Definition onSocketError (error : JsError) : JsError :=
  if (JsString.includes (message error) (lit "socket disconnected")
      || JsString.includes (message error) (lit "TLS"))%bool
  then newKnownError tlsConnectionFailedMessage
  else error.

(** How each event settles the promise. *)
Definition settle (hostname : jsstring) (timeout : Z) (ev : TransportEvent)
  : Result (IncomingMessage * jsstring) :=
  match ev with
  | ResponseEnd response data => Ok (response, data)
  | RequestError error => Throw (onRequestError hostname error)
  | RequestTimeout => Throw (newKnownError (timeoutMessage timeout))
  | SocketError error => Throw (onSocketError error)
  end.

(** [!insecureTls] for an optional boolean. *)
Definition notOpt (b : option bool) : bool :=
  match b with Some true => false | _ => true end.

Section Client.

Variable rt : Runtime.

(** The network: the event that settles the [k]-th request sent. *)
Variable network : nat -> TransportEvent.

Definition requestOptions (hostname path : jsstring)
    (headers : gmap jsstring jsstring) (postContent : jsstring)
    (timeout : Z) (proxy : option jsstring) (insecureTls : option bool)
  : RequestOptions :=
  {| port := 443;
     optHostname := hostname;
     path := path;
     method := lit "POST";
     headers :=
       <[lit "Content-Length" := JsString.ofZ (Buffer_byteLength rt postContent)]>
         (<[lit "Content-Type" := lit "application/json"]> headers);
     optTimeout := timeout;
     agent := match proxy with
              | Some p => if JsString.truthy p then Some (HttpsProxyAgent p) else None
              | None => None
              end;
     secureProtocol := lit "TLSv1_2_method";
     rejectUnauthorized := notOpt insecureTls;
     keepAlive := true;
     keepAliveMsecs := 1000 |}.

Definition httpsPost (hostname path : jsstring)
    (headers : gmap jsstring jsstring) (json : ChatCompletionRequest)
    (timeout : Z) (proxy : option jsstring) (insecureTls : option bool)
  : IO (Result (IncomingMessage * jsstring)) :=
  fun w =>
    let postContent := JSON_stringify rt json in
    let options :=
      requestOptions hostname path headers postContent timeout proxy insecureTls in
    (settle hostname timeout (network (sent w)),
     {| sent := S (sent w); log := log w ++ [Request options postContent] |}).

(** *** The retry loop: [createChatCompletion] *)

(** [!statusCode || statusCode < 200 || statusCode > 299] *)
Definition statusNotOk (response : IncomingMessage) : bool :=
  match statusCode response with
  | None => true
  | Some c => ((c =? 0) || (c <? 200) || (299 <? c))%bool
  end.

Definition showStatus (c : option Z) : jsstring :=
  match c with Some z => JsString.ofZ z | None => lit "undefined" end.

(** The message built for a response outside 200..299. *)
Definition apiErrorMessage (response : IncomingMessage) (data : jsstring)
  : jsstring :=
  let errorMessage :=
    lit "OpenAI API Error: " ++ showStatus (statusCode response) ++
    lit " - " ++ showOpt (statusMessage response) in
  let errorMessage :=
    if JsString.truthy data then errorMessage ++ nl ++ nl ++ data
    else errorMessage in
  match statusCode response with
  | Some 500 =>
      errorMessage ++ nl ++ nl ++ lit "Check the API status: https://status.openai.com"
  | _ => errorMessage
  end.

(** What the [try] body does with the settled request: the status check
    and the parse. *)
Definition checkResponse (r : Result (IncomingMessage * jsstring))
  : Result Completion :=
  match r with
  | Throw e => Throw e
  | Ok (response, data) =>
      if statusNotOk response then
        Throw (newKnownError (apiErrorMessage response data))
      else
        match JSON_parse rt data with
        | inl completion => Ok completion
        | inr msg => Throw (mkError SyntaxError msg None None None)
        end
  end.

Definition apiHost : jsstring := lit "api.openai.com".
Definition apiPath : jsstring := lit "/v1/chat/completions".

(** The body of the [try] block. *)
Definition attemptOnce (apiKey : jsstring) (json : ChatCompletionRequest)
    (timeout : Z) (proxy : option jsstring) (insecureTls : option bool)
  : IO (Result Completion) :=
  r ← httpsPost apiHost apiPath
        {[ lit "Authorization" := lit "Bearer " ++ apiKey ]}
        json timeout proxy insecureTls;
  mret (checkResponse r).

(** [error instanceof KnownError && error.message.includes('401')] *)
Definition isAuthError (error : JsError) : bool :=
  (instanceofKnownError error && JsString.includes (message error) (lit "401"))%bool.

Definition isNetworkError (errorMessage : jsstring) : bool :=
  (JsString.includes errorMessage (lit "TLS")
   || JsString.includes errorMessage (lit "socket disconnected")
   || JsString.includes errorMessage (lit "ECONNRESET")
   || JsString.includes errorMessage (lit "ETIMEDOUT")
   || JsString.includes errorMessage (lit "ENOTFOUND"))%bool.

(** [Math.min(1000 * Math.pow(2, attempt), 5000)].  The power is exact in
    double precision up to [2^1023] and infinite beyond, where the minimum
    is 5000 as it is here. *)
Definition backoffDelay (attempt : Z) : Z := Z.min (1000 * 2 ^ attempt) 5000.

(** How the [for] loop is left. *)
Inductive LoopExit :=
| Returned (completion : Completion)      (* [return] in the [try] body *)
| Thrown (error : JsError)                (* [throw error] in the [catch] *)
| LoopEnd (lastError : option JsError).   (* [break] or the loop condition *)

(** The values [attempt] takes in
    [for (let attempt = 0; attempt <= retries; attempt++)]. *)
Definition attemptRange (retries : Z) : list Z :=
  List.map Z.of_nat (seq 0 (Z.to_nat (retries + 1))).

Fixpoint retryLoop (apiKey : jsstring) (json : ChatCompletionRequest)
    (timeout : Z) (proxy : option jsstring) (retries : Z)
    (insecureTls : option bool)
    (attempts : list Z) (lastError : option JsError) : IO LoopExit :=
  match attempts with
  | [] => mret (LoopEnd lastError)
  | attempt :: rest =>
      r ← attemptOnce apiKey json timeout proxy insecureTls;
      match r with
      | Ok completion => mret (Returned completion)
      | Throw error =>
          let lastError := Some error in
          if isAuthError error then mret (Thrown error)
          else if attempt =? retries then mret (LoopEnd lastError)
          else if negb (isNetworkError (message error)) then mret (Thrown error)
          else
            _ ← sleep (backoffDelay attempt);
            retryLoop apiKey json timeout proxy retries insecureTls rest lastError
      end
  end.

(** [retries] defaults to 2 when the argument is [undefined]. *)
Definition createChatCompletion (apiKey : jsstring)
    (json : ChatCompletionRequest) (timeout : Z) (proxy : option jsstring)
    (retries : option Z) (insecureTls : option bool)
  : IO (Result Completion) :=
  let retries := default 2 retries in
  exit ← retryLoop apiKey json timeout proxy retries insecureTls
           (attemptRange retries) None;
  mret (match exit with
        | Returned completion => Ok completion
        | Thrown error => Throw error
        | LoopEnd lastError =>
            Throw (default (newKnownError (lit "All connection attempts failed"))
                           lastError)
        end).

(** *** The entry point: [generateCommitMessage] *)

(** [choice.message?.content] is truthy. *)
Definition hasContent (choice : Choice) : bool :=
  match choiceMessage choice with
  | Some m => match content m with Some c => JsString.truthy c | None => false end
  | None => false
  end.

(** [choice.message!.content as string], after the filter. *)
Definition contentOf (choice : Choice) : jsstring :=
  match choiceMessage choice with
  | Some m => default [] (content m)
  | None => []
  end.

Definition chatRequest (model locale diff : jsstring) (completions maxLength : Z)
    (type : jsstring) : ChatCompletionRequest :=
  {| Req.model := model;
     Req.messages :=
       [ {| Req.role := lit "system";
            Req.content := generatePrompt rt locale maxLength type |};
         {| Req.role := lit "user"; Req.content := diff |} ];
     Req.temperature := (7 # 10)%Q;
     Req.top_p := 1%Q;
     Req.frequency_penalty := 0%Q;
     Req.presence_penalty := 0%Q;
     Req.max_tokens := 200;
     Req.stream := false;
     Req.n := completions |}.

Definition generateCommitMessage (apiKey model locale diff : jsstring)
    (completions maxLength : Z) (type : jsstring) (timeout : Z)
    (proxy : option jsstring) (retries : option Z) (insecureTls : option bool)
  : IO (Result (list jsstring)) :=
  r ← createChatCompletion apiKey
        (chatRequest model locale diff completions maxLength type)
        timeout proxy retries insecureTls;
  let tried :=
    match r with
    | Throw e => Throw e
    | Ok completion =>
        match choices completion with
        | None =>
            Throw (mkError TypeError (undefinedMethodMessage rt (lit "filter"))
                           None None None)
        | Some cs =>
            Ok (deduplicateMessages
                  (List.map (fun choice => sanitizeMessage (contentOf choice))
                            (List.filter hasContent cs)))
        end
    end in
  mret (match tried with
        | Ok msgs => Ok msgs
        | Throw errorAsAny =>
            if codeIs errorAsAny (lit "ENOTFOUND") then
              Throw (newKnownError
                       (lit "Error connecting to " ++ showOpt (hostname errorAsAny) ++
                        lit " (" ++ showOpt (syscall errorAsAny) ++
                        lit "). Are you connected to the internet?"))
            else Throw errorAsAny
        end).

End Client.

(** ** The SDK-backed variant of [generateCommitMessage]

    This variant hands the request to the OpenAI SDK and relaxes TLS through
    the process environment. *)

Module Sdk.

(** The environment variable Node.js consults for certificate checks. *)
Definition NODE_TLS_REJECT_UNAUTHORIZED : string := "NODE_TLS_REJECT_UNAUTHORIZED".

(** A value caught by the [catch] block, with the outcome of each test
    the block applies to it. *)
Record Thrown := {
  instanceofAPIError : bool;
  instanceofAPIConnectionError : bool;
  instanceofOpenAIError : bool;
  instanceofError : bool;
  status : option Z;
  thrownMessage : jsstring;
  thrownCode : option jsstring;
  thrownHostname : option jsstring;
  thrownSyscall : option jsstring
}.

(** What the function raises: a [KnownError], or the caught value. *)
Inductive Raised :=
| Known (msg : jsstring)
| Rethrown (error : Thrown).

(** [ConstructorParameters<typeof OpenAI>[0]] *)
Record OpenAIConfig := {
  configApiKey : jsstring;
  configTimeout : Z;
  maxRetries : Z;
  httpAgent : option Agent
}.

(** One [openai.chat.completions.create] call: the client configuration,
    the request, and the process environment in force while it runs. *)
Record SdkCall := {
  callConfig : OpenAIConfig;
  callRequest : ChatCompletionRequest;
  callEnv : gmap string string
}.

(** The process: its environment, and the SDK calls made so far. *)
Record Process := {
  env : gmap string string;
  calls : list SdkCall
}.

(** What the SDK and the module loader do. *)
Record Behaviour := {
  (** [await import('https-proxy-agent')] may fail *)
  importAgent : option Thrown;
  (** [new OpenAI(config)] may throw *)
  construct : OpenAIConfig -> option Thrown;
  (** the completion request, under a given environment *)
  create : OpenAIConfig -> ChatCompletionRequest -> gmap string string
           -> Completion + Thrown;
  (** the error for calling [filter] on [undefined] *)
  filterOfUndefined : Thrown
}.

(** Computations that may throw and that update the process. *)
Definition M (A : Type) : Type := Process -> (A + Thrown) * Process.

#[global] Instance M_ret : MRet M := fun A a p => (inl a, p).
#[global] Instance M_bind : MBind M :=
  fun A B k m p =>
    match m p with
    | (inl a, p') => k a p'
    | (inr e, p') => (inr e, p')
    end.

Definition throw {A} (e : Thrown) : M A := fun p => (inr e, p).

(** [try { body } catch (error) { handler }], where the handler always
    throws. *)
Definition tryCatch {A} (body : M A) (handler : Thrown -> Process -> Raised * Process)
  : Process -> (A + Raised) * Process :=
  fun p =>
    match body p with
    | (inl a, p') => (inl a, p')
    | (inr e, p') => let (r, p'') := handler e p' in (inr r, p'')
    end.

Definition setEnv (k v : string) : M unit :=
  fun p => (inl tt, {| env := <[k := v]> (env p); calls := calls p |}).

Definition deleteEnv (k : string) : M unit :=
  fun p => (inl tt, {| env := delete k (env p); calls := calls p |}).

Definition when (b : bool) (m : M unit) : M unit := if b then m else mret tt.

(** Truthiness of an optional boolean. *)
Definition isTrue (b : option bool) : bool :=
  match b with Some true => true | _ => false end.

(** Truthiness of an optional string. *)
Definition isSet (s : option jsstring) : bool :=
  match s with Some s => JsString.truthy s | None => false end.

(** [retries || 2] *)
Definition orTwo (retries : option Z) : Z :=
  match retries with
  | Some r => if r =? 0 then 2 else r
  | None => 2
  end.

Definition statusIs (e : Thrown) (c : Z) : bool :=
  match status e with Some s => s =? c | None => false end.

Definition thrownCodeIs (e : Thrown) (c : jsstring) : bool :=
  match thrownCode e with Some c' => JsString.eqb c' c | None => false end.

Section Variant.

Variable rt : Runtime.
Variable sdk : Behaviour.

(** The classification in the [catch] block, after the TLS reset. *)
Definition classify (timeout : Z) (error : Thrown) : Raised :=
  let msg := thrownMessage error in
  if instanceofAPIError error then
    if statusIs error 401 then
      Known (lit "Invalid OpenAI API key. Please check your API key with: aicommits config get OPENAI_KEY")
    else if statusIs error 429 then
      Known (lit "OpenAI API rate limit exceeded. Please try again later or check your usage at https://platform.openai.com/usage")
    else if statusIs error 500 then
      Known (lit "OpenAI API server error. Please try again later or check the API status at https://status.openai.com")
    else
      Known (lit "OpenAI API Error (" ++ showStatus (status error) ++ lit "): " ++ msg)
  else if instanceofAPIConnectionError error then
    Known (lit "Failed to connect to OpenAI API. " ++
           (if JsString.includes msg (lit "ENOTFOUND") then
              lit "DNS resolution failed. Please check your internet connection."
            else if JsString.includes msg (lit "ECONNREFUSED") then
              lit "Connection refused. Please check your network connection and firewall settings."
            else if JsString.includes msg (lit "ETIMEDOUT") then
              lit "Connection timed out. Please check your network connection or try increasing the timeout."
            else if (JsString.includes msg (lit "socket disconnected")
                     || JsString.includes msg (lit "TLS"))%bool then
              tlsConnectionFailedMessage
            else msg))
  else if (instanceofError error
           && (JsString.includes msg (lit "timeout")
               || JsString.includes msg (lit "ETIMEDOUT")))%bool then
    Known (timeoutMessage timeout)
  else if instanceofOpenAIError error then
    Known (lit "OpenAI Error: " ++ msg)
  else if thrownCodeIs error (lit "ENOTFOUND") then
    Known (lit "Error connecting to " ++ showOpt (thrownHostname error) ++
           lit " (" ++ showOpt (thrownSyscall error) ++
           lit "). Are you connected to the internet?")
  else Rethrown error.

(** [await openai.chat.completions.create(request)] *)
Definition chatCompletionsCreate (config : OpenAIConfig)
    (request : ChatCompletionRequest) : M Completion :=
  fun p =>
    let p' := {| env := env p;
                 calls := calls p ++ [ {| callConfig := config;
                                          callRequest := request;
                                          callEnv := env p |} ] |} in
    match create sdk config request (env p) with
    | inl completion => (inl completion, p')
    | inr e => (inr e, p')
    end.

Definition orThrow (failure : option Thrown) : M unit :=
  match failure with Some e => throw e | None => mret tt end.

Definition generateCommitMessage (apiKey model locale diff : jsstring)
    (completions maxLength : Z) (type : jsstring) (timeout : Z)
    (proxy : option jsstring) (retries : option Z) (insecureTls : option bool)
  : Process -> (list jsstring + Raised) * Process :=
  tryCatch
    (agent ← (if isSet proxy
              then _ ← orThrow (importAgent sdk);
                   mret (Some (HttpsProxyAgent (default [] proxy)))
              else mret None);
     let openaiConfig :=
       {| configApiKey := apiKey; configTimeout := timeout;
          maxRetries := orTwo retries; httpAgent := agent |} in
     _ ← when (isTrue insecureTls) (setEnv NODE_TLS_REJECT_UNAUTHORIZED "0");
     _ ← orThrow (construct sdk openaiConfig);
     completion ← chatCompletionsCreate openaiConfig
                    (chatRequest rt model locale diff completions maxLength type);
     _ ← when (isTrue insecureTls) (deleteEnv NODE_TLS_REJECT_UNAUTHORIZED);
     match choices completion with
     | None => throw (filterOfUndefined sdk)
     | Some cs =>
         mret (deduplicateMessages
                 (List.map (fun choice => sanitizeMessage (contentOf choice))
                           (List.filter hasContent cs)))
     end)
    (fun error p =>
       let p' := if isTrue insecureTls
                 then {| env := delete NODE_TLS_REJECT_UNAUTHORIZED (env p);
                         calls := calls p |}
                 else p in
       (classify timeout error, p')).

End Variant.

End Sdk.

(** * Vocabulary of the properties *)

(** ** Strings *)

Module SpecChars.
(** A decimal digit or the minus sign. *)
Definition isDigitOrMinus (c : N) : bool :=
  ((N.leb 48 c && N.leb c 57) || N.eqb c 45)%bool.

(** The text after the number in the timeout message. *)
Definition timeoutTail : jsstring :=
  lit "s. Try increasing the timeout with: aicommits config set timeout=<milliseconds> or check the OpenAI API status at https://status.openai.com".
End SpecChars.

Module SanitizeSpec.
Import JsString.

(** The string does not begin with white space. *)
Definition startsClean (s : jsstring) : bool :=
  match s with [] => true | c :: _ => negb (isWhiteSpace c) end.

(** The string does not end with white space. *)
Definition endsClean (s : jsstring) : bool := startsClean (rev s).

(** The trailing-period rule in the words of the specification: a final
    dot goes when the character just before it is a word character. *)
Definition dropTrailingPeriod (s : jsstring) : jsstring :=
  match rev s with
  | d :: w :: r => if (N.eqb d dot && isWordChar w)%bool then rev (w :: r) else s
  | _ => s
  end.

End SanitizeSpec.

Module DedupSpec.
(** The position at which a value first occurs in a list. *)
Fixpoint firstIndex (x : jsstring) (l : list jsstring) : option nat :=
  match l with
  | [] => None
  | y :: l' => if JsString.eqb x y then Some 0%nat
               else option_map S (firstIndex x l')
  end.
End DedupSpec.

(** ** Calls of [createChatCompletion] *)

Section CallVocabulary.

Variable rt : Runtime.
Variables (apiKey : jsstring) (json : ChatCompletionRequest) (timeout : Z).
Variables (proxy : option jsstring) (insecureTls : option bool).

(** What the [try] body makes of the event that settles a request. *)
Definition outcome (ev : TransportEvent) : Result Completion :=
  checkResponse rt (settle apiHost timeout ev).

(** The errors after which the [catch] block sleeps and goes round again
    when attempts remain. *)
Definition retried (error : JsError) : bool :=
  (negb (isAuthError error) && isNetworkError (message error))%bool.

(** The request every attempt of one call sends. *)
Definition theRequest : Effect :=
  Request
    (requestOptions rt apiHost apiPath
       {[ lit "Authorization" := lit "Bearer " ++ apiKey ]}
       (JSON_stringify rt json) timeout proxy insecureTls)
    (JSON_stringify rt json).

Definition afterRequest (w : World) : World :=
  {| sent := S (sent w); log := log w ++ [theRequest] |}.

Definition afterSleep (ms : Z) (w : World) : World :=
  {| sent := sent w; log := log w ++ [Sleep ms] |}.

(** The effects of [n] failed attempts that are each followed by a
    back-off, starting at attempt [k]. *)
Definition retriedLog (k n : nat) : list Effect :=
  flat_map (fun a => [theRequest; Sleep (backoffDelay (Z.of_nat a))]) (seq k n).

Definition isRequest (e : Effect) : bool :=
  match e with Request _ _ => true | Sleep _ => false end.

Definition requestCount (l : list Effect) : nat :=
  length (List.filter isRequest l).

(** The attempts before attempt [n] each failed with a retried error, so
    that attempt [n] is made when [n <= retries]. *)
Definition retriedBefore (network : nat -> TransportEvent) (n : nat) : Prop :=
  forall k, (k < n)%nat ->
    exists e, outcome (network k) = Throw e /\ retried e = true.

(** The attempt ended in an HTTP 401 response. *)
Definition authFailure (ev : TransportEvent) : Prop :=
  exists response data,
    ev = ResponseEnd response data /\ statusCode response = Some 401.

(** The attempt ended in a 2xx response whose body [JSON.parse] rejects
    with the message [msg]. *)
Definition malformedBody (ev : TransportEvent) (msg : jsstring) : Prop :=
  exists response data,
    ev = ResponseEnd response data /\ statusNotOk response = false
    /\ JSON_parse rt data = inr msg.

End CallVocabulary.

(** The choice carries no message content: the message is missing, or its
    content is. *)
Definition lacksContent (choice : Choice) : Prop :=
  match choiceMessage choice with
  | None => True
  | Some m => content m = None
  end.

(** Certificate checks are switched off in the options of this request. *)
Definition relaxedRequest (e : Effect) : Prop :=
  match e with
  | Request options _ => rejectUnauthorized options = false
  | Sleep _ => True
  end.

(** Sample engines, events and responses, used to run the client on
    concrete inputs. *)
Module Samples.

Definition quote : jsstring := [34%N].

(** Two bodies and the completions they denote. *)
Definition emptyChoicesBody : jsstring :=
  lit "{" ++ quote ++ lit "choices" ++ quote ++ lit ":[{},{}]}".
Definition emptyChoices : Completion :=
  {| choices := Some [ {| choiceMessage := None |}; {| choiceMessage := None |} ] |}.

Definition oneChoiceBody : jsstring :=
  lit "{" ++ quote ++ lit "choices" ++ quote ++ lit ":[{" ++ quote ++
  lit "message" ++ quote ++ lit ":{" ++ quote ++ lit "content" ++ quote ++
  lit ":" ++ quote ++ lit "Fix bug." ++ quote ++ lit "}},{}]}".
Definition oneChoice : Completion :=
  {| choices :=
       Some [ {| choiceMessage := Some {| content := Some (lit "Fix bug.") |} |};
              {| choiceMessage := None |} ] |}.

(** A parser for these two bodies; every other body is rejected with a
    [SyntaxError] whose message is built by [syntaxMessage]. *)
Definition parseWith (syntaxMessage : jsstring -> jsstring) (data : jsstring)
  : Completion + jsstring :=
  if JsString.eqb data emptyChoicesBody then inl emptyChoices
  else if JsString.eqb data oneChoiceBody then inl oneChoice
  else inr (syntaxMessage data).

(** The message format of V8 up to Node.js 18. *)
Definition legacyMessage (data : jsstring) : jsstring :=
  match data with
  | [] => lit "Unexpected end of JSON input"
  | c :: _ => lit "Unexpected token " ++ [c] ++ lit " in JSON at position 0"
  end.

(** The message format of V8 since Node.js 20, which quotes the text. *)
Definition quotingMessage (data : jsstring) : jsstring :=
  match data with
  | [] => lit "Unexpected end of JSON input"
  | c :: _ =>
      lit "Unexpected token '" ++ [c] ++ lit "', " ++ quote ++ data ++ quote ++
      lit " is not valid JSON"
  end.

Definition engine (syntaxMessage : jsstring -> jsstring) : Runtime :=
  {| JSON_stringify := fun request => lit "{}";
     JSON_parse := parseWith syntaxMessage;
     Buffer_byteLength := fun s => Z.of_nat (length s);
     undefinedMethodMessage := fun m =>
       lit "Cannot read properties of undefined (reading '" ++ m ++ lit "')";
     generatePrompt := fun locale maxLength type =>
       lit "Generate a concise git commit message." |}.

Definition legacyEngine : Runtime := engine legacyMessage.
Definition quotingEngine : Runtime := engine quotingMessage.

Definition respond (status : Z) (statusText : string) (data : jsstring)
  : TransportEvent :=
  ResponseEnd {| statusCode := Some status; statusMessage := Some (lit statusText) |}
              data.

(** The error Node.js raises when the TLS handshake is cut short. *)
Definition handshakeError : JsError :=
  mkError SystemError
    (lit "Client network socket disconnected before secure TLS connection was established")
    (Some (lit "ECONNRESET")) None None.

(** The reply of a gateway in front of the API that could not reach it:
    status 502, with a body that names the cause. *)
Definition gatewayResponse : IncomingMessage :=
  {| statusCode := Some 502; statusMessage := Some (lit "Bad Gateway") |}.
Definition gatewayBody : jsstring := lit "upstream TLS handshake failed".
Definition gatewayReply : TransportEvent := ResponseEnd gatewayResponse gatewayBody.

(** The error [createChatCompletion] raises for that reply. *)
Definition gatewayError : JsError :=
  newKnownError
    (lit "OpenAI API Error: 502 - Bad Gateway" ++ nl ++ nl
     ++ lit "upstream TLS handshake failed").

Definition aRequest : ChatCompletionRequest :=
  chatRequest legacyEngine (lit "gpt-3.5-turbo") (lit "en") (lit "diff --git") 1 50 [].

End Samples.

Module Runs.
Import Samples.

(** Failures the loop retries: the message of the error raised for the
    gateway's reply carries the marker [TLS] and no [401]. *)
Definition tlsFailures : nat -> TransportEvent := fun _ => gatewayReply.
Definition unauthorized : nat -> TransportEvent :=
  fun _ => respond 401 "Unauthorized" [].
Definition tlsBody : nat -> TransportEvent :=
  fun _ => respond 200 "OK" (lit "TLS").
Definition unavailable : nat -> TransportEvent :=
  fun _ => respond 503 "Service Unavailable" [].
Definition timeouts : nat -> TransportEvent := fun _ => RequestTimeout.
Definition emptyChoicesReply : nat -> TransportEvent :=
  fun _ => respond 200 "OK" emptyChoicesBody.
Definition oneChoiceReply : nat -> TransportEvent :=
  fun _ => respond 200 "OK" oneChoiceBody.

(** A retried failure at the first attempt (the gateway's reply that
    mentions TLS), then always [ev]. *)
Definition tlsFirst (ev : TransportEvent) : nat -> TransportEvent :=
  fun k => match k with O => gatewayReply | S _ => ev end.
Definition tlsThenHtml : nat -> TransportEvent :=
  tlsFirst (respond 200 "OK" (lit "<html>")).
Definition tlsThenUnavailable : nat -> TransportEvent :=
  tlsFirst (respond 503 "Service Unavailable" []).

(** A call of [createChatCompletion] with the sample request. *)
Definition run (rt : Runtime) (network : nat -> TransportEvent)
    (retries : option Z) : Result Completion * World :=
  createChatCompletion rt network (lit "sk-test") aRequest 10000 None retries
    None initialWorld.

End Runs.

(** ** Further vocabulary *)

(** The time a log spends asleep, in milliseconds. *)
Definition sleepTotal (l : list Effect) : Z :=
  fold_right (fun e acc => match e with Sleep ms => ms + acc | Request _ _ => acc end)
             0 l.

(** The error carries one of the codes the request's [error] handler
    replaces by a message of its own. *)
Definition listedCode (e : JsError) : bool :=
  (codeIs e (lit "ECONNRESET") || codeIs e (lit "ENOTFOUND")
   || codeIs e (lit "ETIMEDOUT") || codeIs e (lit "ECONNREFUSED")
   || codeIs e (lit "CERT_HAS_EXPIRED")
   || codeIs e (lit "UNABLE_TO_VERIFY_LEAF_SIGNATURE"))%bool.

(** Further sample events. *)
Module MoreRuns.
Import Samples.

(** The error of a failed DNS lookup, as Node.js raises it. *)
Definition dnsError : JsError :=
  mkError SystemError (lit "getaddrinfo ENOTFOUND api.openai.com")
    (Some (lit "ENOTFOUND")) (Some (lit "api.openai.com")) (Some (lit "getaddrinfo")).

Definition dnsFailures : nat -> TransportEvent := fun _ => RequestError dnsError.

(** A retried failure, then the handshake error on the request. *)
Definition tlsThenReset : nat -> TransportEvent :=
  Runs.tlsFirst (RequestError handshakeError).

(** A retried failure, then a reply without usable choices. *)
Definition tlsThenEmptyChoices : nat -> TransportEvent :=
  Runs.tlsFirst (respond 200 "OK" emptyChoicesBody).

(** A call of [generateCommitMessage] with sample arguments. *)
Definition generate (rt : Runtime) (network : nat -> TransportEvent)
    (retries : option Z) : Result (list jsstring) * World :=
  generateCommitMessage rt network (lit "sk-test") (lit "gpt-3.5-turbo") (lit "en")
    (lit "diff --git") 1 50 [] 10000 None retries None initialWorld.

End MoreRuns.

(** A sample SDK whose completion request fails with a value that is no
    [Error] at all, and a fresh process. *)
Module SdkSamples.

Definition plainThrown : Sdk.Thrown :=
  {| Sdk.instanceofAPIError := false;
     Sdk.instanceofAPIConnectionError := false;
     Sdk.instanceofOpenAIError := false;
     Sdk.instanceofError := false;
     Sdk.status := None;
     Sdk.thrownMessage := lit "stopped";
     Sdk.thrownCode := None;
     Sdk.thrownHostname := None;
     Sdk.thrownSyscall := None |}.

Definition failingSdk : Sdk.Behaviour :=
  {| Sdk.importAgent := None;
     Sdk.construct := fun _ => None;
     Sdk.create := fun _ _ _ => inr plainThrown;
     Sdk.filterOfUndefined := plainThrown |}.

Definition freshProcess : Sdk.Process := {| Sdk.env := ∅; Sdk.calls := [] |}.

End SdkSamples.

(** A 200 reply whose body is JSON without a [choices] array, for an engine
    that parses it so. *)
Module ShapeSamples.

Definition noChoicesBody : jsstring := lit "{}".
Definition noChoices : Completion := {| choices := None |}.

Definition engine : Runtime :=
  {| JSON_stringify := JSON_stringify Samples.legacyEngine;
     JSON_parse := fun data =>
       if JsString.eqb data noChoicesBody then inl noChoices
       else JSON_parse Samples.legacyEngine data;
     Buffer_byteLength := Buffer_byteLength Samples.legacyEngine;
     undefinedMethodMessage := undefinedMethodMessage Samples.legacyEngine;
     generatePrompt := generatePrompt Samples.legacyEngine |}.

Definition noChoicesReply : nat -> TransportEvent :=
  fun _ => Samples.respond 200 "OK" noChoicesBody.

(** A 503 whose body mentions both a retry marker and 401. *)
Definition proxyErrorReply : nat -> TransportEvent :=
  fun _ => Samples.respond 503 "Service Unavailable"
             (lit "upstream TLS error, request 4012").

End ShapeSamples.

(** What the request of a call of [createChatCompletion] looks like. *)
Definition wellFormedRequest (rt : Runtime) (apiKey : jsstring)
    (json : ChatCompletionRequest) (timeout : Z) (proxy : option jsstring)
    (insecureTls : option bool) (e : Effect) : Prop :=
  match e with
  | Sleep _ => True
  | Request options postContent =>
      postContent = JSON_stringify rt json
      /\ optHostname options = lit "api.openai.com"
      /\ port options = 443
      /\ path options = lit "/v1/chat/completions"
      /\ method options = lit "POST"
      /\ optTimeout options = timeout
      /\ rejectUnauthorized options = notOpt insecureTls
      /\ (agent options = None <->
          match proxy with Some p => p = [] | None => True end)
      /\ headers options !! lit "Authorization" = Some (lit "Bearer " ++ apiKey)
      /\ headers options !! lit "Content-Type" = Some (lit "application/json")
      /\ headers options !! lit "Content-Length"
         = Some (JsString.ofZ (Buffer_byteLength rt postContent))
      /\ forall k, k <> lit "Authorization" -> k <> lit "Content-Type" ->
                   k <> lit "Content-Length" -> headers options !! k = None
  end.

(** The configuration the variant builds for the SDK client. *)
Definition sdkConfig (apiKey : jsstring) (timeout : Z) (proxy : option jsstring)
    (retries : option Z) : Sdk.OpenAIConfig :=
  {| Sdk.configApiKey := apiKey;
     Sdk.configTimeout := timeout;
     Sdk.maxRetries := Sdk.orTwo retries;
     Sdk.httpAgent := if Sdk.isSet proxy
                      then Some (HttpsProxyAgent (default [] proxy))
                      else None |}.

(** * Properties *)

Example sanitize_ex1 :
  sanitizeMessage (lit "  Fix the login bug." ++ [10%N]) = lit "Fix the login bug".
Proof. reflexivity. Qed.

Example sanitize_ex2 :
  sanitizeMessage (lit "Update README...") = lit "Update README...".
Proof. reflexivity. Qed.

Example dedup_ex :
  deduplicateMessages [lit "Fix bug"; lit "Fix bug"; lit "Add tests"]
  = [lit "Fix bug"; lit "Add tests"].
Proof. reflexivity. Qed.

Example ofZ_ex : JsString.ofZ 401 = lit "401" /\ JsString.ofZ 0 = lit "0"
  /\ JsString.ofZ (-12) = lit "-12".
Proof. repeat split; reflexivity. Qed.


(** ** Facts about strings *)

Module JsStringFacts.
Import JsString SpecChars.

Lemma eqb_eq (a b : jsstring) : eqb a b = true <-> a = b.
Proof.
  revert b; induction a as [|x a IH]; intros [|y b]; simpl; split;
    try congruence; try reflexivity.
  - intros H. apply andb_true_iff in H as [Hx Hab].
    apply N.eqb_eq in Hx. apply IH in Hab. congruence.
  - intros H. injection H as -> ->. rewrite N.eqb_refl. simpl.
    now apply IH.
Qed.

Lemma eqb_refl (a : jsstring) : eqb a a = true.
Proof. now apply eqb_eq. Qed.

Lemma eqb_neq (a b : jsstring) : eqb a b = false <-> a <> b.
Proof.
  split.
  - intros H E. apply eqb_eq in E. congruence.
  - intros H. destruct (eqb a b) eqn:E; [|reflexivity].
    apply eqb_eq in E. contradiction.
Qed.

(** *** Substring search *)

Lemma startsWith_app (p q : jsstring) : startsWith (p ++ q) p = true.
Proof.
  induction p as [|x p IH]; simpl; [reflexivity|].
  now rewrite N.eqb_refl.
Qed.

Lemma includes_cons (c : N) (s sub : jsstring) :
  includes s sub = true -> includes (c :: s) sub = true.
Proof. intros H. simpl. rewrite H. apply orb_true_r. Qed.

(** A string includes every substring it was built around. *)
Lemma includes_app (p sub q : jsstring) :
  includes (p ++ sub ++ q) sub = true.
Proof.
  induction p as [|c p IH].
  - simpl app. destruct (sub ++ q) eqn:E; simpl.
    + destruct sub; [reflexivity | discriminate].
    + rewrite <- E, startsWith_app. reflexivity.
  - apply includes_cons, IH.
Qed.

(** A prefix test that succeeds on [a ++ mid ++ b], where no character
    of the non-empty [mid] occurs in the pattern, succeeds inside [a]. *)
Lemma startsWith_gap (sub a mid b : jsstring) :
  mid <> [] ->
  Forall (fun c => ~ In c sub) mid ->
  startsWith (a ++ mid ++ b) sub = true -> startsWith a sub = true.
Proof.
  intros Hne Hmid. revert sub Hmid.
  induction a as [|x a IH]; intros [|s sub] Hmid H; try reflexivity.
  - destruct mid as [|c mid]; [contradiction|].
    simpl in H. apply andb_true_iff in H as [Hc _].
    apply N.eqb_eq in Hc. subst c.
    inversion Hmid as [|? ? Hn _]. exfalso. apply Hn. now left.
  - simpl in H |- *. apply andb_true_iff in H as [Hx H].
    rewrite Hx. simpl. apply IH; [|exact H].
    eapply List.Forall_impl; [|exact Hmid].
    intros c Hc Hin. apply Hc. now right.
Qed.

Lemma includes_gap_r (sub mid b : jsstring) :
  Forall (fun c => ~ In c sub) mid ->
  includes (mid ++ b) sub = true -> includes b sub = true.
Proof.
  intros Hmid. induction mid as [|c mid IH]; intros H; [exact H|].
  inversion Hmid as [|? ? Hn Hmid']; subst.
  simpl in H. apply orb_true_iff in H as [H|H]; [|now apply IH].
  destruct sub as [|s sub].
  - destruct b; reflexivity.
  - simpl in H. apply andb_true_iff in H as [Hc _].
    apply N.eqb_eq in Hc. subst. exfalso. apply Hn. now left.
Qed.

(** An occurrence of [sub] in [a ++ mid ++ b] lies in [a] or in [b] when
    [mid] shares no character with [sub]. *)
Lemma includes_gap (sub a mid b : jsstring) :
  mid <> [] ->
  Forall (fun c => ~ In c sub) mid ->
  includes (a ++ mid ++ b) sub = true ->
  includes a sub = true \/ includes b sub = true.
Proof.
  intros Hne Hmid. induction a as [|x a IH]; intros H.
  - right. now apply includes_gap_r with mid.
  - change ((x :: a) ++ mid ++ b) with (x :: (a ++ mid ++ b)) in H.
    simpl in H. apply orb_true_iff in H as [H|H].
    + left. apply (startsWith_gap sub (x :: a) mid b Hne Hmid) in H.
      destruct a; simpl in *; rewrite H; reflexivity.
    + destruct (IH H) as [Ha|Hb]; [left|now right].
      now apply includes_cons.
Qed.

(** *** Decimal numerals *)


Lemma string_of_uint_digits (d : Decimal.uint) :
  Forall (fun c => isDigitOrMinus c = true) (lit (NilEmpty.string_of_uint d)).
Proof.
  induction d; simpl; constructor; try reflexivity; assumption.
Qed.

Lemma ofZ_digits (z : Z) :
  Forall (fun c => isDigitOrMinus c = true) (ofZ z).
Proof.
  unfold ofZ, NilZero.string_of_int.
  destruct (Z.to_int z) as [d|d]; unfold NilZero.string_of_uint.
  - destruct d; try apply string_of_uint_digits.
    repeat constructor.
  - change (lit (String "-" ?s)) with (45%N :: lit s).
    constructor; [reflexivity|].
    destruct d; try apply string_of_uint_digits.
    repeat constructor.
Qed.

End JsStringFacts.

(** ** Sanitising a candidate message *)


Module SanitizeFacts.
Import JsString JsStringFacts SanitizeSpec.

Lemma newline_is_whitespace (c : N) :
  isNewline c = true -> isWhiteSpace c = true.
Proof.
  unfold isNewline. intros H. apply orb_true_iff in H as [H|H];
    apply N.eqb_eq in H; subst; reflexivity.
Qed.

Lemma wordChar_not_whitespace (c : N) :
  isWordChar c = true -> isWhiteSpace c = false.
Proof.
  intros H.
  assert (Hr : (48 <= c <= 122)%N).
  { unfold isWordChar in H.
    rewrite !orb_true_iff, !andb_true_iff, !N.leb_le, N.eqb_eq in H. lia. }
  unfold isWhiteSpace. apply orb_false_iff. split.
  - simpl. repeat (apply orb_false_iff; split);
      try reflexivity; apply N.eqb_neq; lia.
  - apply andb_false_iff. left. apply N.leb_gt. lia.
Qed.

Lemma wordChar_not_newline (c : N) :
  isWordChar c = true -> isNewline c = false.
Proof.
  intros H. destruct (isNewline c) eqn:E; [|reflexivity].
  apply newline_is_whitespace in E.
  apply wordChar_not_whitespace in H. congruence.
Qed.

(** *** [trim] *)

Lemma trimStart_split (s : jsstring) :
  exists l, s = l ++ trimStart s /\ Forall (fun c => isWhiteSpace c = true) l.
Proof.
  induction s as [|c s [l [E Hl]]]; simpl.
  - exists []. split; [reflexivity | constructor].
  - destruct (isWhiteSpace c) eqn:W.
    + exists (c :: l). split; [simpl; congruence | now constructor].
    + exists []. split; [reflexivity | constructor].
Qed.

Lemma trimStart_clean (s : jsstring) : startsClean (trimStart s) = true.
Proof.
  induction s as [|c s IH]; simpl; [reflexivity|].
  destruct (isWhiteSpace c) eqn:W; [exact IH|]. simpl. now rewrite W.
Qed.

Lemma trimStart_fix (s : jsstring) : startsClean s = true -> trimStart s = s.
Proof.
  destruct s as [|c s]; simpl; [reflexivity|].
  intros H. apply negb_true_iff in H. now rewrite H.
Qed.

Lemma trimStart_snoc (l : jsstring) (c : N) :
  isWhiteSpace c = false -> trimStart (l ++ [c]) = trimStart l ++ [c].
Proof.
  intros W. induction l as [|x l IH]; simpl.
  - now rewrite W.
  - destruct (isWhiteSpace x); [exact IH | reflexivity].
Qed.

Lemma trimEnd_cons (c : N) (s : jsstring) :
  isWhiteSpace c = false -> trimEnd (c :: s) = c :: trimEnd s.
Proof.
  intros W. unfold trimEnd. simpl rev.
  rewrite trimStart_snoc by exact W.
  now rewrite rev_app_distr.
Qed.

Lemma trimEnd_split (s : jsstring) :
  exists r, s = trimEnd s ++ r /\ Forall (fun c => isWhiteSpace c = true) r.
Proof.
  destruct (trimStart_split (rev s)) as [l [E Hl]].
  exists (rev l). split.
  - unfold trimEnd. rewrite <- rev_app_distr, <- E. now rewrite rev_involutive.
  - now apply List.Forall_rev.
Qed.

Lemma trim_startsClean (s : jsstring) : startsClean (trim s) = true.
Proof.
  unfold trim. pose proof (trimStart_clean s) as H.
  destruct (trimStart s) as [|c u]; [reflexivity|].
  simpl in H. apply negb_true_iff in H.
  rewrite trimEnd_cons by exact H. simpl. now rewrite H.
Qed.

Lemma trim_endsClean (s : jsstring) : endsClean (trim s) = true.
Proof.
  unfold endsClean, trim, trimEnd. rewrite rev_involutive.
  apply trimStart_clean.
Qed.

Lemma trim_fix (s : jsstring) :
  startsClean s = true -> endsClean s = true -> trim s = s.
Proof.
  intros Hs He. unfold trim. rewrite trimStart_fix by exact Hs.
  unfold trimEnd. rewrite trimStart_fix by exact He.
  apply rev_involutive.
Qed.

(** [trim] removes a white-space prefix and a white-space suffix. *)
Lemma trim_split (s : jsstring) :
  exists l r, s = l ++ trim s ++ r
              /\ Forall (fun c => isWhiteSpace c = true) l
              /\ Forall (fun c => isWhiteSpace c = true) r.
Proof.
  destruct (trimStart_split s) as [l [El Hl]].
  destruct (trimEnd_split (trimStart s)) as [r [Er Hr]].
  exists l, r. unfold trim. rewrite <- Er. auto.
Qed.

(** *** Deleting newlines *)

Lemma removeNewlines_none (s : jsstring) :
  Forall (fun c => isNewline c = false) (removeNewlines s).
Proof.
  unfold removeNewlines. apply List.Forall_forall. intros c Hc.
  apply filter_In in Hc as [_ Hc]. now apply negb_true_iff in Hc.
Qed.

Lemma removeNewlines_fix (s : jsstring) :
  Forall (fun c => isNewline c = false) s -> removeNewlines s = s.
Proof.
  unfold removeNewlines. induction 1 as [|c s Hc _ IH]; simpl.
  - reflexivity.
  - rewrite Hc. simpl. now rewrite IH.
Qed.

Lemma removeNewlines_rev (s : jsstring) :
  removeNewlines (rev s) = rev (removeNewlines s).
Proof.
  unfold removeNewlines. induction s as [|c s IH]; simpl; [reflexivity|].
  rewrite List.filter_app, IH. simpl.
  destruct (negb (isNewline c)); simpl; [reflexivity | apply app_nil_r].
Qed.

Lemma removeNewlines_startsClean (s : jsstring) :
  startsClean s = true -> startsClean (removeNewlines s) = true.
Proof.
  destruct s as [|c s]; simpl; [reflexivity|]. intros H.
  destruct (isNewline c) eqn:E.
  - apply newline_is_whitespace in E. rewrite E in H. discriminate.
  - simpl. exact H.
Qed.

Lemma removeNewlines_endsClean (s : jsstring) :
  endsClean s = true -> endsClean (removeNewlines s) = true.
Proof.
  unfold endsClean. rewrite <- removeNewlines_rev.
  apply removeNewlines_startsClean.
Qed.

End SanitizeFacts.

Module TrailingPeriodFacts.
Import JsString JsStringFacts SanitizeSpec SanitizeFacts.

Lemma eqb_long_single (u : jsstring) (a b c : N) :
  eqb (u ++ [a; b]) [c] = false.
Proof.
  apply eqb_neq. intros E. apply (f_equal (@length N)) in E.
  rewrite length_app in E. simpl in E. lia.
Qed.

Lemma replaceWordDotEnd_single (c : N) : replaceWordDotEnd [c] = [c].
Proof. simpl. now rewrite andb_false_r. Qed.

Lemma replaceWordDotEnd_snoc_dot (u : jsstring) (w : N) :
  replaceWordDotEnd (u ++ [w; dot])
  = if isWordChar w then u ++ [w] else u ++ [w; dot].
Proof.
  induction u as [|x u IH].
  - simpl. destruct (isWordChar w); reflexivity.
  - change ((x :: u) ++ [w; dot]) with (x :: (u ++ [w; dot])).
    cbn [replaceWordDotEnd]. rewrite eqb_long_single, andb_false_r, IH.
    destruct (isWordChar w); reflexivity.
Qed.

Lemma replaceWordDotEnd_snoc_other (u : jsstring) (c : N) :
  c <> dot -> replaceWordDotEnd (u ++ [c]) = u ++ [c].
Proof.
  intros Hc. induction u as [|x u IH].
  - apply replaceWordDotEnd_single.
  - change ((x :: u) ++ [c]) with (x :: (u ++ [c])).
    cbn [replaceWordDotEnd].
    assert (E : eqb (u ++ [c]) [dot] = false).
    { apply eqb_neq. destruct u as [|y u]; simpl.
      - congruence.
      - intros E. apply (f_equal (@length N)) in E. simpl in E.
        rewrite length_app in E. simpl in E. lia. }
    now rewrite E, andb_false_r, IH.
Qed.

Lemma dropTrailingPeriod_snoc (u : jsstring) (w d : N) :
  dropTrailingPeriod (u ++ [w; d])
  = if (N.eqb d dot && isWordChar w)%bool then u ++ [w] else u ++ [w; d].
Proof.
  unfold dropTrailingPeriod. rewrite rev_app_distr. simpl rev at 1.
  cbn [app]. destruct (N.eqb d dot && isWordChar w)%bool; [|reflexivity].
  simpl. now rewrite rev_involutive.
Qed.

(** Every string is empty, a single character, or ends in two
    characters. *)
Lemma tail_cases (s : jsstring) :
  s = [] \/ (exists c, s = [c]) \/ (exists u w d, s = u ++ [w; d]).
Proof.
  rewrite <- (rev_involutive s).
  destruct (rev s) as [|d [|w r]]; [now left | right; left | right; right].
  - now exists d.
  - exists (rev r), w, d. simpl. now rewrite <- app_assoc.
Qed.

(** The regular-expression replacement is the trailing-period rule. *)
Lemma replaceWordDotEnd_spec (s : jsstring) :
  replaceWordDotEnd s = dropTrailingPeriod s.
Proof.
  destruct (tail_cases s) as [->|[[c ->]|[u [w [d ->]]]]].
  - reflexivity.
  - rewrite replaceWordDotEnd_single. reflexivity.
  - rewrite dropTrailingPeriod_snoc.
    destruct (N.eqb_spec d dot) as [->|Hd].
    + rewrite replaceWordDotEnd_snoc_dot. reflexivity.
    + change (u ++ [w; d]) with (u ++ [w] ++ [d]).
      rewrite app_assoc. now apply replaceWordDotEnd_snoc_other.
Qed.

(** Either nothing changes, or a final dot after a word character goes. *)
Lemma dropTrailingPeriod_cases (t : jsstring) :
  dropTrailingPeriod t = t
  \/ exists u w, t = u ++ [w; dot] /\ isWordChar w = true
                 /\ dropTrailingPeriod t = u ++ [w].
Proof.
  destruct (tail_cases t) as [->|[[c ->]|[u [w [d ->]]]]];
    [now left | now left |].
  rewrite dropTrailingPeriod_snoc.
  destruct (N.eqb_spec d dot) as [->|Hd]; [|now left].
  destruct (isWordChar w) eqn:W; [right | now left].
  exists u, w. auto.
Qed.

Lemma dropTrailingPeriod_word_end (u : jsstring) (w : N) :
  isWordChar w = true -> dropTrailingPeriod (u ++ [w]) = u ++ [w].
Proof.
  intros W. destruct (tail_cases u) as [->|[[c ->]|[v [a [b ->]]]]].
  - reflexivity.
  - change ([c] ++ [w]) with ([] ++ [c; w]). rewrite dropTrailingPeriod_snoc.
    destruct (N.eqb_spec w dot) as [->|]; [discriminate | reflexivity].
  - rewrite <- app_assoc. change ([a; b] ++ [w]) with ([a] ++ [b; w]).
    rewrite app_assoc, dropTrailingPeriod_snoc.
    destruct (N.eqb_spec w dot) as [->|]; [discriminate | reflexivity].
Qed.

(** The rule keeps a string free of surrounding white space and of
    newlines, and applying it twice is applying it once. *)
Lemma dropTrailingPeriod_keeps (t : jsstring) :
  startsClean t = true -> endsClean t = true ->
  Forall (fun c => isNewline c = false) t ->
  let r := dropTrailingPeriod t in
  startsClean r = true /\ endsClean r = true
  /\ Forall (fun c => isNewline c = false) r
  /\ dropTrailingPeriod r = r.
Proof.
  intros Hs He Hn r. subst r.
  destruct (dropTrailingPeriod_cases t) as [E|[u [w [-> [W E]]]]].
  - rewrite !E. auto.
  - rewrite E. repeat split.
    + destruct u as [|x u]; [|exact Hs].
      simpl. now rewrite (wordChar_not_whitespace w W).
    + unfold endsClean. rewrite rev_app_distr. simpl.
      now rewrite (wordChar_not_whitespace w W).
    + apply List.Forall_app in Hn as [Hu Hw]. apply List.Forall_app. split; [exact Hu|].
      inversion Hw; subst. now constructor.
    + now apply dropTrailingPeriod_word_end.
Qed.

End TrailingPeriodFacts.

Section SanitizeTheorems.
Import JsString SanitizeSpec SanitizeFacts TrailingPeriodFacts.

(** The string handed to the trailing-period rule is free of surrounding
    white space and of newlines. *)
Lemma stripped_clean (s : jsstring) :
  let t := removeNewlines (trim s) in
  startsClean t = true /\ endsClean t = true
  /\ Forall (fun c => isNewline c = false) t.
Proof.
  simpl. split; [|split].
  - apply removeNewlines_startsClean, trim_startsClean.
  - apply removeNewlines_endsClean, trim_endsClean.
  - apply removeNewlines_none.
Qed.

(** C7. [sanitizeMessage] trims surrounding white space (the input is the
    trimmed text between a white-space prefix and a white-space suffix, and
    the trimmed text neither starts nor ends with white space), deletes
    every newline character, and then removes one final period exactly
    when the character before it is a word character; the two sample
    inputs of the specification map as stated. *)
Theorem sanitizeMessage_spec (s : jsstring) :
  let trimmed := trim s in
  let stripped := removeNewlines trimmed in
  (exists l r, s = l ++ trimmed ++ r
               /\ Forall (fun c => isWhiteSpace c = true) l
               /\ Forall (fun c => isWhiteSpace c = true) r)
  /\ startsClean trimmed = true /\ endsClean trimmed = true
  /\ stripped = List.filter (fun c => negb (isNewline c)) trimmed
  /\ Forall (fun c => isNewline c = false) (sanitizeMessage s)
  /\ sanitizeMessage s = dropTrailingPeriod stripped
  /\ sanitizeMessage (lit "  Fix the login bug." ++ [10%N]) = lit "Fix the login bug"
  /\ sanitizeMessage (lit "Update README...") = lit "Update README..."
  /\ sanitizeMessage (lit "fix bug.") = lit "fix bug"
  /\ sanitizeMessage (lit "...") = lit "...".
Proof.
  intros trimmed stripped.
  assert (E : sanitizeMessage s = dropTrailingPeriod stripped)
    by apply replaceWordDotEnd_spec.
  split; [apply trim_split|].
  split; [apply trim_startsClean|].
  split; [apply trim_endsClean|].
  split; [reflexivity|].
  split.
  { rewrite E. destruct (stripped_clean s) as [Hs [He Hn]].
    apply (dropTrailingPeriod_keeps _ Hs He Hn). }
  split; [exact E|].
  repeat split; reflexivity.
Qed.

(** C10. [sanitizeMessage] is idempotent. *)
Theorem sanitizeMessage_idempotent (s : jsstring) :
  sanitizeMessage (sanitizeMessage s) = sanitizeMessage s.
Proof.
  destruct (stripped_clean s) as [Hs [He Hn]].
  destruct (dropTrailingPeriod_keeps _ Hs He Hn) as [Hs' [He' [Hn' Hfix]]].
  unfold sanitizeMessage. rewrite (replaceWordDotEnd_spec (removeNewlines (trim s))).
  rewrite trim_fix by assumption.
  rewrite removeNewlines_fix by assumption.
  rewrite replaceWordDotEnd_spec. exact Hfix.
Qed.

End SanitizeTheorems.

(** ** Deduplication *)


Module DedupFacts.
Import JsStringFacts DedupSpec.

Lemma has_In (s : JsSet.t) (x : jsstring) : JsSet.has s x = true <-> In x s.
Proof.
  unfold JsSet.has. rewrite existsb_exists. split.
  - intros [y [Hy E]]. apply eqb_eq in E. now subst.
  - intros H. exists x. split; [exact H | apply eqb_refl].
Qed.

Lemma add_In (s : JsSet.t) (x y : jsstring) :
  In y (JsSet.add s x) <-> In y s \/ y = x.
Proof.
  unfold JsSet.add. destruct (JsSet.has s x) eqn:E.
  - apply has_In in E. split; [now left | intros [H| ->]; assumption].
  - rewrite in_app_iff. simpl. intuition congruence.
Qed.

Lemma add_NoDup (s : JsSet.t) (x : jsstring) :
  List.NoDup s -> List.NoDup (JsSet.add s x).
Proof.
  intros H. unfold JsSet.add. destruct (JsSet.has s x) eqn:E; [exact H|].
  apply List.NoDup_app.
  - exact H.
  - constructor; [intros [] | constructor].
  - intros y Hy [<-|[]]. apply has_In in Hy. congruence.
Qed.

Lemma dedup_snoc (l : list jsstring) (x : jsstring) :
  deduplicateMessages (l ++ [x]) = JsSet.add (deduplicateMessages l) x.
Proof.
  unfold deduplicateMessages, JsSet.toArray, JsSet.ofArray.
  now rewrite fold_left_app.
Qed.

Lemma dedup_In (l : list jsstring) (x : jsstring) :
  In x (deduplicateMessages l) <-> In x l.
Proof.
  induction l as [|y l IH] using rev_ind; [reflexivity|].
  rewrite dedup_snoc, add_In, in_app_iff, IH. simpl. intuition congruence.
Qed.

Lemma dedup_NoDup (l : list jsstring) : List.NoDup (deduplicateMessages l).
Proof.
  induction l as [|y l IH] using rev_ind; [constructor|].
  rewrite dedup_snoc. now apply add_NoDup.
Qed.

Lemma firstIndex_In (x : jsstring) (l : list jsstring) :
  In x l -> exists a, firstIndex x l = Some a /\ (a < length l)%nat.
Proof.
  induction l as [|y l IH]; simpl; [intros []|]. intros H.
  destruct (JsString.eqb x y) eqn:E.
  - exists 0%nat. split; [reflexivity | lia].
  - destruct H as [->|H]; [now rewrite eqb_refl in E|].
    destruct (IH H) as [a [-> Ha]]. exists (S a). split; [reflexivity | lia].
Qed.

Lemma firstIndex_app_l (x : jsstring) (l m : list jsstring) (a : nat) :
  firstIndex x l = Some a -> firstIndex x (l ++ m) = Some a.
Proof.
  revert a. induction l as [|y l IH]; simpl; [discriminate|]. intros a.
  destruct (JsString.eqb x y); [trivial|].
  destruct (firstIndex x l) as [b|]; [|discriminate].
  intros H. now rewrite (IH b eq_refl).
Qed.

Lemma firstIndex_fresh (x : jsstring) (l : list jsstring) :
  ~ In x l -> firstIndex x (l ++ [x]) = Some (length l).
Proof.
  induction l as [|y l IH]; simpl; intros H.
  - now rewrite eqb_refl.
  - destruct (JsString.eqb x y) eqn:E.
    + apply eqb_eq in E. subst. exfalso. apply H. now left.
    + rewrite IH; [reflexivity|]. intros Hin. apply H. now right.
Qed.

(** Earlier in the output means first seen earlier in the input. *)
Lemma dedup_order (l : list jsstring) (i j : nat) (x y : jsstring) :
  (i < j)%nat ->
  nth_error (deduplicateMessages l) i = Some x ->
  nth_error (deduplicateMessages l) j = Some y ->
  exists a b, firstIndex x l = Some a /\ firstIndex y l = Some b /\ (a < b)%nat.
Proof.
  revert i j x y. induction l as [|z l IH] using rev_ind; intros i j x y Hij Hx Hy.
  - destruct i; discriminate.
  - rewrite dedup_snoc in Hx, Hy. unfold JsSet.add in Hx, Hy.
    destruct (JsSet.has (deduplicateMessages l) z) eqn:E.
    + destruct (IH i j x y Hij Hx Hy) as [a [b [Ha [Hb Hab]]]].
      exists a, b. auto using firstIndex_app_l.
    + assert (Hz : ~ In z l).
      { rewrite <- dedup_In, <- has_In. congruence. }
      destruct (Nat.lt_ge_cases j (length (deduplicateMessages l))) as [Hj|Hj].
      * rewrite nth_error_app1 in Hx, Hy by lia.
        destruct (IH i j x y Hij Hx Hy) as [a [b [Ha [Hb Hab]]]].
        exists a, b. auto using firstIndex_app_l.
      * assert (Hlen : (j < S (length (deduplicateMessages l)))%nat).
        { assert (Hlt : nth_error (deduplicateMessages l ++ [z]) j <> None)
            by congruence.
          apply nth_error_Some in Hlt.
          rewrite length_app in Hlt. simpl in Hlt. lia. }
        assert (j = length (deduplicateMessages l)) by lia. subst j.
        rewrite nth_error_app2, Nat.sub_diag in Hy by lia.
        injection Hy as <-.
        rewrite nth_error_app1 in Hx by lia.
        apply nth_error_In in Hx. apply (proj1 (dedup_In l x)) in Hx.
        destruct (firstIndex_In x l Hx) as [a [Ha Hlt]].
        exists a, (length l). rewrite (firstIndex_app_l x l _ a Ha).
        rewrite firstIndex_fresh by exact Hz. auto.
Qed.

End DedupFacts.

(** C8. The output of [deduplicateMessages] has no two equal strings, holds
    exactly the values of the input, and lists them in the order of their
    first occurrences in the input; the sample list of the specification
    maps as stated. *)
Theorem deduplicateMessages_spec (array : list jsstring) :
  let out := deduplicateMessages array in
  List.NoDup out
  /\ (forall x, In x out <-> In x array)
  /\ (forall i j x y,
        (i < j)%nat -> nth_error out i = Some x -> nth_error out j = Some y ->
        exists a b, DedupSpec.firstIndex x array = Some a
                    /\ DedupSpec.firstIndex y array = Some b /\ (a < b)%nat)
  /\ deduplicateMessages [lit "Fix bug"; lit "Fix bug"; lit "Add tests"]
     = [lit "Fix bug"; lit "Add tests"].
Proof.
  intros out. repeat split.
  - apply DedupFacts.dedup_NoDup.
  - apply DedupFacts.dedup_In.
  - apply DedupFacts.dedup_In.
  - apply DedupFacts.dedup_order.
Qed.

(** ** The retry loop *)

Section RetryFacts.

Variable rt : Runtime.
Variable network : nat -> TransportEvent.
Variables (apiKey : jsstring) (json : ChatCompletionRequest) (timeout : Z).
Variables (proxy : option jsstring) (retries : Z) (insecureTls : option bool).


Abbreviation loop :=
  (retryLoop rt network apiKey json timeout proxy retries insecureTls).
Abbreviation outcome := (outcome rt timeout).
Abbreviation theRequest := (theRequest rt apiKey json timeout proxy insecureTls).
Abbreviation afterRequest := (afterRequest rt apiKey json timeout proxy insecureTls).
Abbreviation retriedLog := (retriedLog rt apiKey json timeout proxy insecureTls).

Lemma attemptOnce_run (w : World) :
  attemptOnce rt network apiKey json timeout proxy insecureTls w
  = (outcome (network (sent w)), afterRequest w).
Proof. reflexivity. Qed.

(** One iteration of the loop. *)
Lemma loop_cons (attempt : Z) (rest : list Z) (last : option JsError) (w : World) :
  loop (attempt :: rest) last w
  = match outcome (network (sent w)) with
    | Ok completion => (Returned completion, afterRequest w)
    | Throw error =>
        if isAuthError error then (Thrown error, afterRequest w)
        else if attempt =? retries then (LoopEnd (Some error), afterRequest w)
        else if negb (isNetworkError (message error)) then (Thrown error, afterRequest w)
        else loop rest (Some error) (afterSleep (backoffDelay attempt) (afterRequest w))
    end.
Proof.
  cbn [retryLoop]. unfold mbind, IO_bind. rewrite attemptOnce_run.
  destruct (outcome (network (sent w))) as [c|e]; [reflexivity|].
  destruct (isAuthError e); [reflexivity|].
  destruct (attempt =? retries); [reflexivity|].
  destruct (isNetworkError (message e)); reflexivity.
Qed.

Lemma retried_split (e : JsError) :
  retried e = true -> isAuthError e = false /\ isNetworkError (message e) = true.
Proof.
  unfold retried. intros H. apply andb_true_iff in H as [H1 H2].
  apply negb_true_iff in H1. auto.
Qed.

(** An attempt that fails with a retried error before the last attempt
    sends its request, sleeps, and hands over to the next attempt. *)
Lemma loop_retry (attempt : Z) (rest : list Z) (last : option JsError)
    (w : World) (e : JsError) :
  outcome (network (sent w)) = Throw e -> retried e = true ->
  attempt <> retries ->
  loop (attempt :: rest) last w
  = loop rest (Some e) (afterSleep (backoffDelay attempt) (afterRequest w)).
Proof.
  intros Ho Hr Hne. apply retried_split in Hr as [Ha Hn].
  rewrite loop_cons, Ho, Ha, Hn.
  apply Z.eqb_neq in Hne. now rewrite Hne.
Qed.

(** [n] retried failures in a row, none of them at the last attempt. *)
Lemma loop_prefix (n k : nat) (rest : list Z) (last : option JsError) (w : World) :
  Z.of_nat (k + n) <= retries ->
  (forall j, (j < n)%nat ->
     exists e, outcome (network (sent w + j)%nat) = Throw e /\ retried e = true) ->
  exists last' w',
    loop (List.map Z.of_nat (seq k n) ++ rest) last w = loop rest last' w'
    /\ sent w' = (sent w + n)%nat
    /\ log w' = log w ++ retriedLog k n.
Proof.
  revert k last w. induction n as [|n IH]; intros k last w Hk Hfail.
  - exists last, w. simpl. rewrite Nat.add_0_r, app_nil_r. auto.
  - destruct (Hfail 0%nat ltac:(lia)) as [e [Ho Hr]].
    rewrite Nat.add_0_r in Ho.
    cbn [seq List.map app].
    rewrite (loop_retry _ _ _ _ e Ho Hr) by lia.
    set (w1 := afterSleep _ _).
    destruct (IH (S k) (Some e) w1) as [last' [w' [E [Hs Hl]]]].
    + lia.
    + intros j Hj. destruct (Hfail (S j) ltac:(lia)) as [e' He'].
      exists e'. subst w1. simpl. now rewrite <- Nat.add_succ_r.
    + exists last', w'. rewrite E. split; [reflexivity|]. split.
      * rewrite Hs. subst w1. simpl. lia.
      * rewrite Hl. subst w1. unfold retriedLog. simpl.
        now rewrite <- !app_assoc.
Qed.

(** The loop only appends to the log, and a loop with an attempt left
    begins by sending a request. *)
Lemma loop_log (attempts : list Z) (last : option JsError) (w : World) :
  exists tail,
    log (snd (loop attempts last w)) = log w ++ tail
    /\ (attempts <> [] -> exists tail', tail = theRequest :: tail').
Proof.
  revert last w. induction attempts as [|a rest IH]; intros last w.
  - exists []. simpl. rewrite app_nil_r. split; [reflexivity | congruence].
  - rewrite loop_cons.
    assert (Hone : exists tail,
               log (afterRequest w) = log w ++ tail
               /\ (a :: rest <> [] -> exists tail', tail = theRequest :: tail')).
    { exists [theRequest]. split; [reflexivity|]. intros _. now exists []. }
    destruct (outcome (network (sent w))) as [c|e]; [exact Hone|].
    destruct (isAuthError e); [exact Hone|].
    destruct (a =? retries); [exact Hone|].
    destruct (isNetworkError (message e)); [|exact Hone]. simpl negb. cbv iota.
    destruct (IH (Some e) (afterSleep (backoffDelay a) (afterRequest w)))
      as [tail [E _]].
    exists (theRequest :: Sleep (backoffDelay a) :: tail). split.
    + rewrite E. simpl. now rewrite <- !app_assoc.
    + intros _. eauto.
Qed.

Lemma attemptRange_eq :
  0 <= retries ->
  attemptRange retries = List.map Z.of_nat (seq 0 (S (Z.to_nat retries))).
Proof.
  intros H. unfold attemptRange. do 2 f_equal.
  rewrite Z2Nat.inj_add by lia. simpl. lia.
Qed.

Lemma requestCount_app (l m : list Effect) :
  requestCount (l ++ m) = (requestCount l + requestCount m)%nat.
Proof. unfold requestCount. now rewrite List.filter_app, length_app. Qed.

Lemma requestCount_retriedLog (k n : nat) : requestCount (retriedLog k n) = n.
Proof.
  revert k. induction n as [|n IH]; intros k; [reflexivity|].
  unfold retriedLog in *. cbn [seq flat_map].
  rewrite requestCount_app, IH. reflexivity.
Qed.


End RetryFacts.

Section RetryTheorems.

Variable rt : Runtime.
Variable network : nat -> TransportEvent.
Variables (apiKey : jsstring) (json : ChatCompletionRequest) (timeout : Z).
Variables (proxy : option jsstring) (retries : option Z) (insecureTls : option bool).

Abbreviation call :=
  (createChatCompletion rt network apiKey json timeout proxy retries insecureTls).
Abbreviation request := (theRequest rt apiKey json timeout proxy insecureTls).
Abbreviation sentRequest := (afterRequest rt apiKey json timeout proxy insecureTls).

Lemma call_loop (w : World) :
  call w
  = let (exit, w') :=
      retryLoop rt network apiKey json timeout proxy (default 2 retries)
        insecureTls (attemptRange (default 2 retries)) None w in
    (match exit with
     | Returned completion => Ok completion
     | Thrown error => Throw error
     | LoopEnd lastError =>
         Throw (default (newKnownError (lit "All connection attempts failed"))
                        lastError)
     end, w').
Proof. reflexivity. Qed.

(** After [n] retried failures the loop stands at attempt [n], with [n]
    requests sent. *)
Lemma reach_attempt (n : nat) :
  Z.of_nat n <= default 2 retries ->
  retriedBefore rt timeout network n ->
  exists last w,
    retryLoop rt network apiKey json timeout proxy (default 2 retries)
      insecureTls (attemptRange (default 2 retries)) None initialWorld
    = retryLoop rt network apiKey json timeout proxy (default 2 retries)
        insecureTls
        (Z.of_nat n
         :: List.map Z.of_nat (seq (S n) (Z.to_nat (default 2 retries) - n)))
        last w
    /\ sent w = n
    /\ log w = retriedLog rt apiKey json timeout proxy insecureTls 0 n.
Proof.
  generalize (default 2 retries). intros r Hn Hfail.
  destruct (loop_prefix rt network apiKey json timeout proxy r insecureTls
              n 0 (Z.of_nat n :: List.map Z.of_nat (seq (S n) (Z.to_nat r - n)))
              None initialWorld) as [last [w [E [Hs Hl]]]].
  { simpl. lia. }
  { intros j Hj. simpl. now apply Hfail. }
  exists last, w. split; [|split; [exact Hs | exact Hl]].
  rewrite <- E, attemptRange_eq by lia. f_equal.
  change (Z.of_nat n :: List.map Z.of_nat (seq (S n) (Z.to_nat r - n)))
    with (List.map Z.of_nat (seq n (S (Z.to_nat r - n)))).
  rewrite <- List.map_app, <- seq_app. do 2 f_equal. lia.
Qed.

(** An attempt whose error the [catch] block rethrows, or that is the last
    attempt, ends the call with no further request. *)
Lemma attempt_final (n : nat) (e : JsError) :
  Z.of_nat n <= default 2 retries ->
  retriedBefore rt timeout network n ->
  outcome rt timeout (network n) = Throw e ->
  isAuthError e = true \/ isNetworkError (message e) = false ->
  exists w,
    call initialWorld = (Throw e, w)
    /\ sent w = S n
    /\ requestCount (log w) = S n.
Proof.
  intros Hn Hfail Ho Hfinal.
  destruct (reach_attempt n Hn Hfail) as [last [w [E [Hs Hl]]]].
  exists (sentRequest w). split; [|split].
  - rewrite call_loop, E, loop_cons, Hs, Ho.
    destruct (isAuthError e); [reflexivity|].
    destruct (_ =? default 2 retries); [reflexivity|].
    destruct Hfinal as [Ha|Hm]; [discriminate|]. now rewrite Hm.
  - simpl. now rewrite Hs.
  - simpl. rewrite Hl, requestCount_app, requestCount_retriedLog.
    unfold requestCount. simpl. lia.
Qed.

(** An attempt that succeeds ends the call with no further request. *)
Lemma attempt_success (n : nat) (completion : Completion) :
  Z.of_nat n <= default 2 retries ->
  retriedBefore rt timeout network n ->
  outcome rt timeout (network n) = Ok completion ->
  exists w,
    call initialWorld = (Ok completion, w)
    /\ sent w = S n.
Proof.
  intros Hn Hfail Ho.
  destruct (reach_attempt n Hn Hfail) as [last [w [E [Hs Hl]]]].
  exists (sentRequest w). split.
  - now rewrite call_loop, E, loop_cons, Hs, Ho.
  - simpl. now rewrite Hs.
Qed.


End RetryTheorems.


Section BackoffTheorem.

Variable rt : Runtime.
Variable network : nat -> TransportEvent.
Variables (apiKey : jsstring) (json : ChatCompletionRequest) (timeout : Z).
Variables (proxy : option jsstring) (retries : option Z) (insecureTls : option bool).

Abbreviation call0 :=
  (createChatCompletion rt network apiKey json timeout proxy retries insecureTls).
Abbreviation request0 := (theRequest rt apiKey json timeout proxy insecureTls).


End BackoffTheorem.

(** ** Errors that end the call at once *)

Module MarkerFacts.
Import JsString JsStringFacts SpecChars.

Ltac no_marker_char :=
  let c := fresh "c" in
  let Hc := fresh "Hc" in
  let Hin := fresh "Hin" in
  intros c Hc Hin; vm_compute in Hin;
  repeat (destruct Hin as [Hin|Hin]; [subst c; vm_compute in Hc; discriminate|]);
  exact Hin.


Lemma timeoutMessage_split (timeout : Z) :
  timeoutMessage timeout
  = lit "Request timed out after " ++ (ofZ timeout ++ [109%N]) ++ timeoutTail.
Proof. unfold timeoutMessage. now rewrite <- app_assoc. Qed.

(** No marker occurs in the timeout message, whatever the number. *)
Lemma timeoutMessage_marker_free (timeout : Z) (sub : jsstring) :
  In sub [lit "TLS"; lit "socket disconnected"; lit "ECONNRESET";
          lit "ETIMEDOUT"; lit "ENOTFOUND"] ->
  includes (timeoutMessage timeout) sub = false.
Proof.
  intros Hsub.
  destruct (includes (timeoutMessage timeout) sub) eqn:E; [|reflexivity].
  exfalso. rewrite timeoutMessage_split in E.
  assert (Hmid : ofZ timeout ++ [109%N] <> []) by (now destruct (ofZ timeout)).
  simpl in Hsub.
  repeat (destruct Hsub as [<-|Hsub];
          [ apply includes_gap in E;
            [ destruct E as [E|E]; vm_compute in E; discriminate
            | exact Hmid
            | apply List.Forall_app; split;
              [ eapply List.Forall_impl; [|apply ofZ_digits]; no_marker_char
              | constructor; [|constructor];
                let Hin := fresh in intros Hin; vm_compute in Hin;
                repeat (destruct Hin as [Hin|Hin]; [discriminate|]); exact Hin ] ]
          | ]).
  contradiction.
Qed.

Lemma timeoutMessage_not_network (timeout : Z) :
  isNetworkError (timeoutMessage timeout) = false.
Proof.
  unfold isNetworkError.
  rewrite !timeoutMessage_marker_free; try reflexivity; simpl; auto 10.
Qed.

End MarkerFacts.


Section TerminalFailures.

Variable rt : Runtime.
Variable network : nat -> TransportEvent.
Variables (apiKey : jsstring) (json : ChatCompletionRequest) (timeout : Z).
Variables (proxy : option jsstring) (retries : option Z) (insecureTls : option bool).

Abbreviation call' :=
  (createChatCompletion rt network apiKey json timeout proxy retries insecureTls).


Lemma status401_is_auth (response : IncomingMessage) (data : jsstring) :
  statusCode response = Some 401 ->
  isAuthError (newKnownError (apiErrorMessage response data)) = true.
Proof.
  intros H. unfold isAuthError, apiErrorMessage. rewrite H.
  cbn [instanceofKnownError errClass message newKnownError andb showStatus].
  change (JsString.ofZ 401) with (lit "401").
  destruct (JsString.truthy data).
  - rewrite <- !app_assoc. apply JsStringFacts.includes_app.
  - apply JsStringFacts.includes_app.
Qed.

(** X16. An attempt answered by HTTP 401, or answered by a 2xx body that
    [JSON.parse] rejects with a message free of the network markers, ends
    the call whatever [retries] is: no further request is sent, and the
    error of that attempt is thrown (the [KnownError] of the response, or
    the [SyntaxError] of the parser).  Attempt [n] is the first attempt when
    [n = 0], and otherwise follows [n] retried failures. *)
Theorem auth_and_malformed_not_retried (n : nat) :
  Z.of_nat n <= default 2 retries ->
  retriedBefore rt timeout network n ->
  authFailure (network n)
  \/ (exists msg, malformedBody rt (network n) msg /\ isNetworkError msg = false) ->
  exists e w,
    outcome rt timeout (network n) = Throw e
    /\ call' initialWorld = (Throw e, w)
    /\ sent w = S n
    /\ requestCount (log w) = S n
    /\ (authFailure (network n) -> errClass e = KnownError)
    /\ (forall msg, malformedBody rt (network n) msg ->
          errClass e = SyntaxError /\ message e = msg).
Proof.
  intros Hn Hbefore Hcase.
  assert (Hex : exists e, outcome rt timeout (network n) = Throw e
                  /\ (isAuthError e = true \/ isNetworkError (message e) = false)).
  { destruct Hcase as [[response [data [Hev Hs]]]|[msg [[response [data [Hev [Hs Hp]]]] Hm]]].
    - exists (newKnownError (apiErrorMessage response data)). split.
      + unfold outcome. rewrite Hev. simpl. unfold statusNotOk. rewrite Hs.
        reflexivity.
      + left. now apply status401_is_auth.
    - exists (mkError SyntaxError msg None None None). split.
      + unfold outcome. rewrite Hev. simpl. now rewrite Hs, Hp.
      + right. exact Hm. }
  destruct Hex as [e [Ho Hfinal]].
  destruct (attempt_final rt network apiKey json timeout proxy retries insecureTls
              n e Hn Hbefore Ho Hfinal) as [w [Hcall [Hsent Hcount]]].
  exists e, w.
  split; [exact Ho|]. split; [exact Hcall|].
  split; [exact Hsent|]. split; [exact Hcount|]. split.
  - intros [response [data [Hev Hs]]]. unfold outcome in Ho. rewrite Hev in Ho.
    simpl in Ho. unfold statusNotOk in Ho. rewrite Hs in Ho. simpl in Ho.
    injection Ho as <-. reflexivity.
  - intros msg [response [data [Hev [Hs Hp]]]]. unfold outcome in Ho.
    rewrite Hev in Ho. simpl in Ho. rewrite Hs, Hp in Ho.
    injection Ho as <-. auto.
Qed.

(** C4, as the code has it. An attempt answered with a status in 500..599
    raises the [KnownError] built from the status line and the body; unless
    that message carries a network marker, the error is thrown at once,
    whatever [retries] is, and no further request is sent. *)
Theorem server_error_not_retried (n : nat) (response : IncomingMessage)
    (data : jsstring) (status : Z) :
  Z.of_nat n <= default 2 retries ->
  retriedBefore rt timeout network n ->
  network n = ResponseEnd response data ->
  statusCode response = Some status ->
  500 <= status <= 599 ->
  isNetworkError (apiErrorMessage response data) = false ->
  exists w,
    call' initialWorld = (Throw (newKnownError (apiErrorMessage response data)), w)
    /\ sent w = S n
    /\ requestCount (log w) = S n.
Proof.
  intros Hn Hbefore Hev Hs Hrange Hm.
  apply attempt_final; [exact Hn | exact Hbefore | | now right].
  unfold outcome. rewrite Hev. simpl. unfold statusNotOk. rewrite Hs.
  replace ((status =? 0) || (status <? 200) || (299 <? status))%bool with true;
    [reflexivity|].
  symmetry. apply orb_true_iff. right. apply Z.ltb_lt. lia.
Qed.

(** C5, as the code has it. An attempt that runs into the request timeout
    raises the [KnownError] with the timeout message, which is thrown at
    once, whatever [retries] is: no further request is sent. *)
Theorem timeout_not_retried (n : nat) :
  Z.of_nat n <= default 2 retries ->
  retriedBefore rt timeout network n ->
  network n = RequestTimeout ->
  exists w,
    call' initialWorld = (Throw (newKnownError (timeoutMessage timeout)), w)
    /\ sent w = S n
    /\ requestCount (log w) = S n.
Proof.
  intros Hn Hbefore Hev.
  apply attempt_final; [exact Hn | exact Hbefore | | right].
  - unfold outcome. now rewrite Hev.
  - apply MarkerFacts.timeoutMessage_not_network.
Qed.

End TerminalFailures.

(** ** Candidates from a parsed response *)


Lemma lacksContent_dropped (choice : Choice) :
  lacksContent choice -> hasContent choice = false.
Proof.
  unfold lacksContent, hasContent.
  destruct (choiceMessage choice) as [m|]; [|reflexivity].
  now intros ->.
Qed.

Lemma filter_lacksContent (cs : list Choice) :
  Forall lacksContent cs -> List.filter hasContent cs = [].
Proof.
  induction 1 as [|choice cs' Hl _ IH]; [reflexivity|].
  simpl. now rewrite (lacksContent_dropped choice Hl).
Qed.

Lemma hasContent_content (choice : Choice) :
  hasContent choice = true ->
  exists c, choiceMessage choice = Some {| content := Some c |}
            /\ c <> [] /\ contentOf choice = c.
Proof.
  unfold hasContent, contentOf.
  destruct (choiceMessage choice) as [[[c|]]|]; try discriminate.
  intros H. exists c. repeat split. intros ->. discriminate.
Qed.

Section Candidates.

Variable rt : Runtime.
Variable network : nat -> TransportEvent.
Variables (apiKey model locale diff : jsstring) (completions maxLength : Z).
Variables (type : jsstring) (timeout : Z).
Variables (proxy : option jsstring) (retries : option Z) (insecureTls : option bool).

(** C9. When an attempt yields a 2xx response that parses to a completion
    with a [choices] array, [generateCommitMessage] returns normally; every
    string it returns is the sanitised content of a choice whose content is
    present and non-empty, so choices without content contribute nothing;
    and when every choice lacks content the result is the empty list,
    returned as a success. *)
Theorem contentless_choices_dropped (n : nat) (response : IncomingMessage)
    (data : jsstring) (completion : Completion) (cs : list Choice) :
  Z.of_nat n <= default 2 retries ->
  retriedBefore rt timeout network n ->
  network n = ResponseEnd response data ->
  statusNotOk response = false ->
  JSON_parse rt data = inl completion ->
  choices completion = Some cs ->
  exists msgs w,
    generateCommitMessage rt network apiKey model locale diff completions
      maxLength type timeout proxy retries insecureTls initialWorld
    = (Ok msgs, w)
    /\ msgs = deduplicateMessages
                (List.map (fun choice => sanitizeMessage (contentOf choice))
                          (List.filter hasContent cs))
    /\ (forall m, In m msgs ->
          exists choice c,
            In choice cs
            /\ choiceMessage choice = Some {| content := Some c |}
            /\ c <> [] /\ m = sanitizeMessage c)
    /\ (Forall lacksContent cs -> msgs = []).
Proof.
  intros Hn Hbefore Hev Hs Hp Hc.
  assert (Ho : outcome rt timeout (network n) = Ok completion).
  { unfold outcome. rewrite Hev. simpl. now rewrite Hs, Hp. }
  destruct (attempt_success rt network apiKey
              (chatRequest rt model locale diff completions maxLength type)
              timeout proxy retries insecureTls n completion Hn Hbefore Ho)
    as [w [Hcall _]].
  eexists. exists w. split.
  { unfold generateCommitMessage, mbind, IO_bind.
    rewrite Hcall, Hc. reflexivity. }
  split; [reflexivity|]. split.
  - intros m Hm. apply (proj1 (DedupFacts.dedup_In _ m)) in Hm.
    apply in_map_iff in Hm as [choice [<- Hin]].
    apply filter_In in Hin as [Hin Hhas].
    destruct (hasContent_content choice Hhas) as [c [Hmsg [Hne Hc']]].
    exists choice, c. rewrite Hc'. auto.
  - intros Hall. now rewrite (filter_lacksContent cs Hall).
Qed.

End Candidates.


(** ** The scope of relaxed TLS *)

Section RequestsOfACall.

Variable rt : Runtime.
Variable network : nat -> TransportEvent.
Variables (apiKey : jsstring) (json : ChatCompletionRequest) (timeout : Z).
Variables (proxy : option jsstring) (retries : Z) (insecureTls : option bool).
Variable P : Effect -> Prop.
Hypothesis P_request : P (theRequest rt apiKey json timeout proxy insecureTls).
Hypothesis P_sleep : forall ms, P (Sleep ms).

(** A property of the request and of sleeps holds of everything the loop
    logs. *)
Lemma loop_effects (attempts : list Z) (last : option JsError) (w : World) :
  Forall P (log w) ->
  Forall P (log (snd (retryLoop rt network apiKey json timeout proxy retries
                        insecureTls attempts last w))).
Proof.
  revert last w. induction attempts as [|a rest IH]; intros last w Hw.
  - exact Hw.
  - rewrite loop_cons.
    assert (H1 : Forall P (log (afterRequest rt apiKey json timeout proxy insecureTls w))).
    { simpl. apply List.Forall_app. split; [exact Hw | now constructor]. }
    destruct (outcome rt timeout (network (sent w))) as [c|e]; [exact H1|].
    destruct (isAuthError e); [exact H1|].
    destruct (a =? retries); [exact H1|].
    destruct (isNetworkError (message e)); [|exact H1].
    apply IH. simpl. apply List.Forall_app. split; [exact H1 | now constructor].
Qed.

End RequestsOfACall.

Ltac sdk_step :=
  cbv beta iota zeta delta
    [Sdk.generateCommitMessage Sdk.tryCatch mbind Sdk.M_bind mret Sdk.M_ret
     Sdk.chatCompletionsCreate Sdk.orThrow Sdk.throw Sdk.when Sdk.setEnv
     Sdk.deleteEnv Sdk.isTrue fst snd];
  cbn [Sdk.env Sdk.calls].

Ltac sdk_cases :=
  repeat (sdk_step;
          match goal with
          | |- context [match ?x with _ => _ end] =>
              lazymatch x with
              | context [match _ with _ => _ end] => fail
              | _ => destruct x
              end
          end);
  sdk_step.


(** C3. With [insecureTls] set, the SDK-backed [generateCommitMessage] leaves
    the process environment without [NODE_TLS_REJECT_UNAUTHORIZED] on every
    exit path, whether it returns or throws and whatever the SDK does: the
    final environment is the initial one with that variable deleted (so it
    is the initial one when the variable was not set before), and the
    variable is ["0"] in the environment of the SDK call made in between.
    Without [insecureTls] the environment is never touched.  The raw-HTTPS
    client keeps no global TLS state at all: with [insecureTls] set, each
    request it sends carries [rejectUnauthorized = false] in its own
    options. *)
Theorem tls_relaxation_scoped (rt : Runtime) (sdk : Sdk.Behaviour)
    (network : nat -> TransportEvent)
    (apiKey model locale diff : jsstring) (completions maxLength : Z)
    (type : jsstring) (timeout : Z) (proxy : option jsstring) (retries : option Z)
    (p0 : Sdk.Process) :
  let VAR := Sdk.NODE_TLS_REJECT_UNAUTHORIZED in
  let run flag :=
    Sdk.generateCommitMessage rt sdk apiKey model locale diff completions
      maxLength type timeout proxy retries flag p0 in
  let p1 := snd (run (Some true)) in
  Sdk.env p1 = delete VAR (Sdk.env p0)
  /\ Sdk.env p1 !! VAR = None
  /\ (Sdk.env p0 !! VAR = None -> Sdk.env p1 = Sdk.env p0)
  /\ (exists new,
        Sdk.calls p1 = Sdk.calls p0 ++ new
        /\ Forall (fun c => Sdk.callEnv c = <[VAR := "0"%string]> (Sdk.env p0)) new)
  /\ Sdk.env (snd (run (Some false))) = Sdk.env p0
  /\ Sdk.env (snd (run None)) = Sdk.env p0
  /\ Forall relaxedRequest
       (log (snd (generateCommitMessage rt network apiKey model locale diff
                    completions maxLength type timeout proxy retries (Some true)
                    initialWorld))).
Proof.
  intros VAR run p1.
  assert (Henv : Sdk.env p1 = delete VAR (Sdk.env p0)
                 /\ exists new,
                      Sdk.calls p1 = Sdk.calls p0 ++ new
                      /\ Forall (fun c => Sdk.callEnv c
                                          = <[VAR := "0"%string]> (Sdk.env p0)) new).
  { subst p1 run VAR. sdk_cases;
      (split;
       [ rewrite ?delete_delete_eq, ?delete_insert_eq; reflexivity
       | first [ exists []; split; [now rewrite app_nil_r | constructor]
               | eexists; split; [reflexivity | repeat constructor] ] ]). }
  destruct Henv as [Henv Hcalls].
  split; [exact Henv|]. split; [rewrite Henv; apply lookup_delete_eq|].
  split; [intros Hnone; rewrite Henv; now apply delete_id|].
  split; [exact Hcalls|].
  split; [subst run; sdk_cases; reflexivity|].
  split; [subst run; sdk_cases; reflexivity|].
  unfold generateCommitMessage, mbind, IO_bind.
  rewrite call_loop.
  pose proof (loop_effects rt network apiKey
                (chatRequest rt model locale diff completions maxLength type)
                timeout proxy (default 2 retries) (Some true) relaxedRequest
                eq_refl (fun _ => I)
                (attemptRange (default 2 retries)) None initialWorld
                (List.Forall_nil _)) as Hlog.
  destruct (retryLoop _ _ _ _ _ _ _ _ _ _ _) as [exit w]. simpl in Hlog |- *.
  destruct exit as [completion|e|[e|]]; exact Hlog.
Qed.

(** ** The theorems on concrete runs *)

Lemma tlsFirst_retriedBefore (rt : Runtime) (timeout : Z) (ev : TransportEvent) :
  retriedBefore rt timeout (Runs.tlsFirst ev) 1.
Proof.
  intros k Hk. assert (k = 0%nat) as -> by lia.
  exists Samples.gatewayError.
  split; vm_compute; reflexivity.
Qed.




Lemma auth_and_malformed_not_retried_witness :
  (exists e w,
     Runs.run Samples.legacyEngine Runs.unauthorized (Some 5) = (Throw e, w)
     /\ sent w = 1%nat /\ errClass e = KnownError)
  /\ (exists e w,
        Runs.run Samples.legacyEngine Runs.tlsThenHtml (Some 5) = (Throw e, w)
        /\ sent w = 2%nat /\ errClass e = SyntaxError).
Proof.
  split.
  - destruct (auth_and_malformed_not_retried Samples.legacyEngine Runs.unauthorized
                (lit "sk-test") Samples.aRequest 10000 None (Some 5) None 0)
      as [e [w [_ [Hcall [Hsent [_ [Hauth _]]]]]]].
    + simpl. lia.
    + intros k Hk. lia.
    + left. eexists. eexists. split; reflexivity.
    + exists e, w. split; [exact Hcall|]. split; [exact Hsent|].
      apply Hauth. eexists. eexists. split; reflexivity.
  - destruct (auth_and_malformed_not_retried Samples.legacyEngine Runs.tlsThenHtml
                (lit "sk-test") Samples.aRequest 10000 None (Some 5) None 1)
      as [e [w [_ [Hcall [Hsent [_ [_ Hmal]]]]]]].
    + simpl. lia.
    + apply tlsFirst_retriedBefore.
    + right. exists (Samples.legacyMessage (lit "<html>")). split.
      * eexists. eexists. split; [reflexivity|]. split; reflexivity.
      * vm_compute. reflexivity.
    + exists e, w. split; [exact Hcall|]. split; [exact Hsent|].
      apply (Hmal (Samples.legacyMessage (lit "<html>"))).
      eexists. eexists. split; [reflexivity|]. split; reflexivity.
Defined.

Lemma server_error_not_retried_witness :
  500 <= 503 <= 599
  /\ exists w,
       Runs.run Samples.legacyEngine Runs.tlsThenUnavailable (Some 2)
       = (Throw (newKnownError (lit "OpenAI API Error: 503 - Service Unavailable")), w)
       /\ sent w = 2%nat.
Proof.
  split; [lia|].
  destruct (server_error_not_retried Samples.legacyEngine Runs.tlsThenUnavailable
              (lit "sk-test") Samples.aRequest 10000 None (Some 2) None 1
              {| statusCode := Some 503;
                 statusMessage := Some (lit "Service Unavailable") |} [] 503)
    as [w [Hcall [Hsent _]]].
  - simpl. lia.
  - apply tlsFirst_retriedBefore.
  - reflexivity.
  - reflexivity.
  - lia.
  - vm_compute. reflexivity.
  - exists w. split; [exact Hcall | exact Hsent].
Defined.

Lemma timeout_not_retried_witness :
  exists w,
    Runs.run Samples.legacyEngine Runs.timeouts (Some 1)
    = (Throw (newKnownError (timeoutMessage 10000)), w)
    /\ sent w = 1%nat.
Proof.
  destruct (timeout_not_retried Samples.legacyEngine Runs.timeouts
              (lit "sk-test") Samples.aRequest 10000 None (Some 1) None 0)
    as [w [Hcall [Hsent _]]].
  - simpl. lia.
  - intros k Hk. lia.
  - reflexivity.
  - exists w. split; [exact Hcall | exact Hsent].
Defined.

Lemma contentless_choices_dropped_witness :
  (exists w,
     generateCommitMessage Samples.legacyEngine Runs.emptyChoicesReply
       (lit "sk-test") (lit "gpt-3.5-turbo") (lit "en") (lit "diff --git") 2 50 []
       10000 None None None initialWorld
     = (Ok [], w))
  /\ (exists w,
        generateCommitMessage Samples.legacyEngine Runs.oneChoiceReply
          (lit "sk-test") (lit "gpt-3.5-turbo") (lit "en") (lit "diff --git") 2 50 []
          10000 None None None initialWorld
        = (Ok [lit "Fix bug"], w)).
Proof.
  split.
  - destruct (contentless_choices_dropped Samples.legacyEngine Runs.emptyChoicesReply
                (lit "sk-test") (lit "gpt-3.5-turbo") (lit "en") (lit "diff --git")
                2 50 [] 10000 None None None 0
                {| statusCode := Some 200; statusMessage := Some (lit "OK") |}
                Samples.emptyChoicesBody Samples.emptyChoices
                [ {| choiceMessage := None |}; {| choiceMessage := None |} ])
      as [msgs [w [Hcall [_ [_ Hempty]]]]].
    + simpl. lia.
    + intros k Hk. lia.
    + reflexivity.
    + reflexivity.
    + vm_compute. reflexivity.
    + reflexivity.
    + exists w. rewrite Hcall, Hempty; [reflexivity|].
      repeat constructor.
  - destruct (contentless_choices_dropped Samples.legacyEngine Runs.oneChoiceReply
                (lit "sk-test") (lit "gpt-3.5-turbo") (lit "en") (lit "diff --git")
                2 50 [] 10000 None None None 0
                {| statusCode := Some 200; statusMessage := Some (lit "OK") |}
                Samples.oneChoiceBody Samples.oneChoice
                [ {| choiceMessage := Some {| content := Some (lit "Fix bug.") |} |};
                  {| choiceMessage := None |} ])
      as [msgs [w [Hcall [Hmsgs _]]]].
    + simpl. lia.
    + intros k Hk. lia.
    + reflexivity.
    + reflexivity.
    + vm_compute. reflexivity.
    + reflexivity.
    + exists w. rewrite Hcall, Hmsgs. reflexivity.
Defined.

(** *** Runs on which the specification's retry classification fails *)

(** C2. A body that is no JSON should end the call at its attempt, as a
    401 does; the [catch] block, whose comment reads "Only retry on
    network-related errors", tests the message of the [SyntaxError] for its
    markers all the same.  With an engine that quotes the rejected text in
    that message, the non-JSON body [TLS] of a 200 reply is retried: with
    [retries = 1] two requests are sent. *)
Lemma malformed_body_retried :
  JSON_parse Samples.quotingEngine (lit "TLS")
  = inr (lit "Unexpected token 'T', " ++ Samples.quote ++ lit "TLS" ++ Samples.quote
         ++ lit " is not valid JSON")
  /\ sent (snd (Runs.run Samples.quotingEngine Runs.tlsBody (Some 1))) = 2%nat.
Proof. split; vm_compute; reflexivity. Qed.



(** An HTTP 503 at attempt 0 with [retries = 2] ends the call: one request
    is sent and the error is thrown at once. *)
Lemma server_error_ends_call :
  fst (Runs.run Samples.legacyEngine Runs.unavailable (Some 2))
  = Throw (newKnownError (lit "OpenAI API Error: 503 - Service Unavailable"))
  /\ sent (snd (Runs.run Samples.legacyEngine Runs.unavailable (Some 2))) = 1%nat.
Proof. split; vm_compute; reflexivity. Qed.

(** With [retries = 1] and every attempt timing out, the call sends one
    request, not two, and leaves the loop by the [throw] of the [catch]
    block, not at its end. *)
Lemma timeout_single_attempt :
  sent (snd (Runs.run Samples.legacyEngine Runs.timeouts (Some 1))) = 1%nat
  /\ fst (retryLoop Samples.legacyEngine Runs.timeouts (lit "sk-test")
            Samples.aRequest 10000 None 1 None (attemptRange 1) None initialWorld)
     = Thrown (newKnownError (timeoutMessage 10000)).
Proof. split; vm_compute; reflexivity. Qed.


(** * Further properties of the client *)

(** ** The shape of a call's effects *)

Section TraceShape.

Variable rt : Runtime.
Variable network : nat -> TransportEvent.
Variables (apiKey : jsstring) (json : ChatCompletionRequest) (timeout : Z).
Variables (proxy : option jsstring) (insecureTls : option bool).

Abbreviation req1 := (theRequest rt apiKey json timeout proxy insecureTls).
Abbreviation retriedLog1 := (retriedLog rt apiKey json timeout proxy insecureTls).

(** From attempt [k] with [m] attempts to follow, the loop sends a request,
    and after each of [n <= m] of them it sleeps and sends another. *)
Lemma loop_shape (retries : Z) (m k : nat) (last : option JsError) (w : World) :
  retries = Z.of_nat (k + m) ->
  exists n,
    (n <= m)%nat
    /\ sent (snd (retryLoop rt network apiKey json timeout proxy retries
                    insecureTls (List.map Z.of_nat (seq k (S m))) last w))
       = (sent w + S n)%nat
    /\ log (snd (retryLoop rt network apiKey json timeout proxy retries
                   insecureTls (List.map Z.of_nat (seq k (S m))) last w))
       = log w ++ retriedLog1 k n ++ [req1].
Proof.
  revert k last w. induction m as [|m IH]; intros k last w Hr.
  - exists 0%nat. split; [lia|].
    cbn [seq List.map]. rewrite loop_cons.
    assert (Hk : (Z.of_nat k =? retries) = true) by (apply Z.eqb_eq; lia).
    rewrite Hk.
    destruct (outcome rt timeout (network (sent w))) as [c|e];
      [|destruct (isAuthError e)]; simpl; split; try lia; reflexivity.
  - change (seq k (S (S m))) with (k :: seq (S k) (S m)).
    cbn [List.map]. rewrite loop_cons.
    assert (Hk : (Z.of_nat k =? retries) = false) by (apply Z.eqb_neq; lia).
    rewrite Hk.
    assert (Hstop : exists n,
               (n <= S m)%nat
               /\ sent (afterRequest rt apiKey json timeout proxy insecureTls w)
                  = (sent w + S n)%nat
               /\ log (afterRequest rt apiKey json timeout proxy insecureTls w)
                  = log w ++ retriedLog1 k n ++ [req1]).
    { exists 0%nat. simpl. split; [lia|]. split; [lia | reflexivity]. }
    destruct (outcome rt timeout (network (sent w))) as [c|e]; [exact Hstop|].
    destruct (isAuthError e); [exact Hstop|].
    destruct (isNetworkError (message e)); [|exact Hstop]. simpl negb. cbv iota.
    destruct (IH (S k) (Some e)
                (afterSleep (backoffDelay (Z.of_nat k))
                   (afterRequest rt apiKey json timeout proxy insecureTls w)))
      as [n [Hn [Hs Hl]]]; [lia|].
    exists (S n). split; [lia|]. split.
    + rewrite Hs. simpl. lia.
    + rewrite Hl. unfold retriedLog. simpl. now rewrite <- !app_assoc.
Qed.

Lemma sleepTotal_app (l l' : list Effect) :
  sleepTotal (l ++ l') = sleepTotal l + sleepTotal l'.
Proof.
  induction l as [|e l IH]; simpl; [reflexivity|].
  destruct e; rewrite IH; lia.
Qed.

Lemma backoffDelay_bounds (a : Z) : 0 <= a -> 1000 <= backoffDelay a <= 5000.
Proof.
  intros Ha. unfold backoffDelay.
  pose proof (Z.pow_pos_nonneg 2 a) as Hpow.
  assert (0 < 2 ^ a) by (apply Hpow; lia).
  lia.
Qed.

Lemma sleepTotal_retriedLog (k n : nat) :
  1000 * Z.of_nat n <= sleepTotal (retriedLog1 k n) <= 5000 * Z.of_nat n.
Proof.
  revert k. induction n as [|n IH]; intros k; [simpl; lia|].
  unfold retriedLog in *. cbn [seq flat_map]. rewrite sleepTotal_app.
  specialize (IH (S k)).
  pose proof (backoffDelay_bounds (Z.of_nat k) (Nat2Z.is_nonneg k)).
  assert (E : sleepTotal [req1; Sleep (backoffDelay (Z.of_nat k))]
              = backoffDelay (Z.of_nat k) + 0) by reflexivity.
  rewrite E. lia.
Qed.

End TraceShape.

Section CallShape.

Variable rt : Runtime.
Variable network : nat -> TransportEvent.
Variables (apiKey : jsstring) (json : ChatCompletionRequest) (timeout : Z).
Variables (proxy : option jsstring) (retries : option Z) (insecureTls : option bool).

Abbreviation call2 :=
  (createChatCompletion rt network apiKey json timeout proxy retries insecureTls).

Lemma call_world (w : World) :
  snd (call2 w)
  = snd (retryLoop rt network apiKey json timeout proxy (default 2 retries)
           insecureTls (attemptRange (default 2 retries)) None w).
Proof.
  rewrite call_loop. now destruct (retryLoop _ _ _ _ _ _ _ _ _ _ _).
Qed.

(** X1. Whatever the network does, a call with [retries >= 0] sends its
    requests one after the other with a back-off sleep between two of them
    and nothing else: for some [n <= retries] the log is [n] times a request
    followed by the sleep of its attempt index, and then one last request.
    The call never ends on a sleep and never sleeps twice in a row. *)
Theorem call_trace_shape :
  0 <= default 2 retries ->
  exists n,
    Z.of_nat n <= default 2 retries
    /\ sent (snd (call2 initialWorld)) = S n
    /\ log (snd (call2 initialWorld))
       = flat_map (fun a => [theRequest rt apiKey json timeout proxy insecureTls;
                             Sleep (Z.min (1000 * 2 ^ Z.of_nat a) 5000)])
                  (seq 0 n)
         ++ [theRequest rt apiKey json timeout proxy insecureTls].
Proof.
  intros Hr. rewrite call_world, attemptRange_eq by exact Hr.
  destruct (loop_shape rt network apiKey json timeout proxy insecureTls
              (default 2 retries) (Z.to_nat (default 2 retries)) 0 None
              initialWorld) as [n [Hn [Hs Hl]]]; [simpl; lia|].
  exists n. split; [lia|]. split; [exact Hs | exact Hl].
Qed.

(** X2. The time a call with [retries >= 0] spends in back-off sleeps is
    at least 1000 ms and at most 5000 ms for each request after the first,
    hence at most [5000 * retries] ms in all. *)
Theorem backoff_total_bound :
  0 <= default 2 retries ->
  let w := snd (call2 initialWorld) in
  1000 * (Z.of_nat (sent w) - 1) <= sleepTotal (log w)
  /\ sleepTotal (log w) <= 5000 * (Z.of_nat (sent w) - 1)
  /\ sleepTotal (log w) <= 5000 * default 2 retries.
Proof.
  intros Hr w. subst w. rewrite call_world, attemptRange_eq by exact Hr.
  destruct (loop_shape rt network apiKey json timeout proxy insecureTls
              (default 2 retries) (Z.to_nat (default 2 retries)) 0 None
              initialWorld) as [n [Hn [Hs Hl]]]; [simpl; lia|].
  rewrite Hs, Hl. simpl app. rewrite sleepTotal_app.
  pose proof (sleepTotal_retriedLog rt apiKey json timeout proxy insecureTls 0 n)
    as Hsum.
  change (sleepTotal [theRequest rt apiKey json timeout proxy insecureTls]) with 0.
  simpl sent. lia.
Qed.

(** X3. With a negative [retries] the loop body never runs: no request is
    sent, nothing is logged, and the call throws the [KnownError] "All
    connection attempts failed". *)
Theorem negative_retries_no_attempt (r : Z) (w : World) :
  retries = Some r ->
  r < 0 ->
  call2 w = (Throw (newKnownError (lit "All connection attempts failed")), w).
Proof.
  intros -> Hr. rewrite call_loop. simpl default.
  unfold attemptRange. replace (Z.to_nat (r + 1)) with 0%nat by lia.
  reflexivity.
Qed.

End CallShape.

Lemma call_trace_shape_witness :
  exists n,
    Z.of_nat n <= 2
    /\ sent (snd (Runs.run Samples.legacyEngine Runs.tlsThenUnavailable (Some 2)))
       = S n.
Proof.
  destruct (call_trace_shape Samples.legacyEngine Runs.tlsThenUnavailable
              (lit "sk-test") Samples.aRequest 10000 None (Some 2) None)
    as [n [Hn [Hs _]]].
  - simpl. lia.
  - exists n. split; [exact Hn | exact Hs].
Defined.

Lemma backoff_total_bound_witness :
  sleepTotal (log (snd (Runs.run Samples.legacyEngine Runs.tlsFailures (Some 2))))
  <= 10000.
Proof.
  destruct (backoff_total_bound Samples.legacyEngine Runs.tlsFailures
              (lit "sk-test") Samples.aRequest 10000 None (Some 2) None)
    as [_ [_ Hb]].
  - simpl. lia.
  - exact Hb.
Defined.

Lemma negative_retries_no_attempt_witness :
  Runs.run Samples.legacyEngine Runs.tlsFailures (Some (-1))
  = (Throw (newKnownError (lit "All connection attempts failed")), initialWorld).
Proof.
  apply (negative_retries_no_attempt Samples.legacyEngine Runs.tlsFailures
           (lit "sk-test") Samples.aRequest 10000 None (Some (-1)) None (-1)).
  - reflexivity.
  - lia.
Defined.

(** ** Which failures are retried, and what the caller sees *)

Lemma listed_code_final (e : JsError) :
  listedCode e = true ->
  isNetworkError (message (onRequestError apiHost e)) = false
  /\ isAuthError (onRequestError apiHost e) = false.
Proof.
  unfold listedCode, onRequestError. intros H.
  destruct (codeIs e (lit "ECONNRESET")); [split; vm_compute; reflexivity|].
  destruct (codeIs e (lit "ENOTFOUND")); [split; vm_compute; reflexivity|].
  destruct (codeIs e (lit "ETIMEDOUT")); [split; vm_compute; reflexivity|].
  destruct (codeIs e (lit "ECONNREFUSED")); [split; vm_compute; reflexivity|].
  destruct (codeIs e (lit "CERT_HAS_EXPIRED")); [split; vm_compute; reflexivity|].
  destruct (codeIs e (lit "UNABLE_TO_VERIFY_LEAF_SIGNATURE"));
    [split; vm_compute; reflexivity | discriminate].
Qed.

(** An error raised for a reply, a request error or a timeout carries no
    code: it is a [KnownError], or the [SyntaxError] of the parser. *)
Lemma outcome_no_code (rt : Runtime) (timeout : Z) (ev : TransportEvent)
    (e : JsError) :
  (forall e', ev <> SocketError e') ->
  outcome rt timeout ev = Throw e ->
  code e = None.
Proof.
  intros Hev Ho. destruct ev as [response data|e'| |e']; unfold outcome in Ho;
    simpl in Ho.
  - destruct (statusNotOk response); [injection Ho as <-; reflexivity|].
    destruct (JSON_parse rt data); [discriminate | injection Ho as <-; reflexivity].
  - injection Ho as <-. reflexivity.
  - injection Ho as <-. reflexivity.
  - exfalso. now apply (Hev e').
Qed.

Section Surfaced.

Variable rt : Runtime.
Variable network : nat -> TransportEvent.
Variables (apiKey model locale diff : jsstring) (completions maxLength : Z).
Variables (type : jsstring) (timeout : Z).
Variables (proxy : option jsstring) (retries : option Z) (insecureTls : option bool).

Abbreviation generate :=
  (generateCommitMessage rt network apiKey model locale diff completions
     maxLength type timeout proxy retries insecureTls).
Abbreviation theJson := (chatRequest rt model locale diff completions maxLength type).
Abbreviation create :=
  (createChatCompletion rt network apiKey theJson timeout proxy retries insecureTls).

(** What the [catch] block of [generateCommitMessage] does with an error of
    [createChatCompletion]. *)
Lemma generate_throw (e : JsError) (w : World) :
  create initialWorld = (Throw e, w) ->
  generate initialWorld
  = (if codeIs e (lit "ENOTFOUND")
     then Throw (newKnownError
                   (lit "Error connecting to " ++ showOpt (hostname e) ++
                    lit " (" ++ showOpt (syscall e) ++
                    lit "). Are you connected to the internet?"))
     else Throw e, w).
Proof.
  intros H. unfold generateCommitMessage, mbind, IO_bind. rewrite H.
  unfold mret, IO_ret. now destruct (codeIs e (lit "ENOTFOUND")).
Qed.

(** X4. Transient failures are absorbed: when the attempts before attempt
    [n <= retries] failed with retried errors and attempt [n] is answered by
    a 2xx response whose body parses, [createChatCompletion] returns the
    parsed completion; it has sent [n + 1] requests, with the back-off sleep
    of each failed attempt between them. *)
Theorem success_after_retries (n : nat) (response : IncomingMessage)
    (data : jsstring) (completion : Completion) :
  Z.of_nat n <= default 2 retries ->
  retriedBefore rt timeout network n ->
  network n = ResponseEnd response data ->
  statusNotOk response = false ->
  JSON_parse rt data = inl completion ->
  exists w,
    create initialWorld = (Ok completion, w)
    /\ sent w = S n
    /\ log w
       = flat_map (fun a => [theRequest rt apiKey theJson timeout proxy insecureTls;
                             Sleep (Z.min (1000 * 2 ^ Z.of_nat a) 5000)])
                  (seq 0 n)
         ++ [theRequest rt apiKey theJson timeout proxy insecureTls].
Proof.
  intros Hn Hbefore Hev Hs Hp.
  assert (Ho : outcome rt timeout (network n) = Ok completion).
  { unfold outcome. rewrite Hev. simpl. now rewrite Hs, Hp. }
  destruct (reach_attempt rt network apiKey theJson timeout proxy retries
              insecureTls n Hn Hbefore) as [last [w [E [Hsent Hlog]]]].
  exists (afterRequest rt apiKey theJson timeout proxy insecureTls w).
  split; [|split].
  - now rewrite call_loop, E, loop_cons, Hsent, Ho.
  - simpl. now rewrite Hsent.
  - simpl. now rewrite Hlog.
Qed.

(** X5. A request error with one of the codes the [error] handler of
    [httpsPost] knows (ECONNRESET, ENOTFOUND, ETIMEDOUT, ECONNREFUSED,
    CERT_HAS_EXPIRED, UNABLE_TO_VERIFY_LEAF_SIGNATURE) is never retried: the
    handler replaces its message by a text without any of the markers the
    retry test looks for, so the call ends at that attempt and
    [generateCommitMessage] throws the handler's [KnownError] unchanged. *)
Theorem coded_request_error_not_retried (n : nat) (e : JsError) :
  Z.of_nat n <= default 2 retries ->
  retriedBefore rt timeout network n ->
  network n = RequestError e ->
  listedCode e = true ->
  exists w,
    generate initialWorld = (Throw (onRequestError apiHost e), w)
    /\ sent w = S n
    /\ errClass (onRequestError apiHost e) = KnownError
    /\ retried (onRequestError apiHost e) = false.
Proof.
  intros Hn Hbefore Hev Hcode.
  destruct (listed_code_final e Hcode) as [Hnet Hauth].
  destruct (attempt_final rt network apiKey theJson timeout proxy retries
              insecureTls n (onRequestError apiHost e) Hn Hbefore)
    as [w [Hcall [Hsent _]]].
  { unfold outcome. now rewrite Hev. }
  { now right. }
  exists w. split; [|split; [exact Hsent|split; [reflexivity|]]].
  - rewrite (generate_throw _ w Hcall). reflexivity.
  - unfold retried. now rewrite Hnet, andb_false_r.
Qed.

(** No error that leaves the loop carries a code, unless the socket's
    listener settled a request. *)
Lemma loop_no_code (attempts : list Z) (last : option JsError) (w : World) :
  (forall k e', network k <> SocketError e') ->
  (forall e, last = Some e -> code e = None) ->
  match fst (retryLoop rt network apiKey theJson timeout proxy (default 2 retries)
               insecureTls attempts last w) with
  | Returned _ => True
  | Thrown e => code e = None
  | LoopEnd last' => forall e, last' = Some e -> code e = None
  end.
Proof.
  intros Hnet. revert last w.
  induction attempts as [|a rest IH]; intros last w Hlast.
  - exact Hlast.
  - rewrite loop_cons.
    destruct (outcome rt timeout (network (sent w))) as [c|e] eqn:Ho; [exact I|].
    assert (Hc : code e = None)
      by (apply (outcome_no_code rt timeout _ e (Hnet _) Ho)).
    destruct (isAuthError e); [exact Hc|].
    destruct (a =? default 2 retries); [simpl; intros e' [= <-]; exact Hc|].
    destruct (isNetworkError (message e)); [|exact Hc]. simpl negb. cbv iota.
    apply IH. intros e' [= <-]. exact Hc.
Qed.

(** X7. The [catch] block of [generateCommitMessage] replaces an error
    whose code is ENOTFOUND by "Error connecting to ...".  When every request
    is settled by a reply, by the request's [error] handler or by the
    timeout, no error thrown by [createChatCompletion] carries a code, so
    that branch is not taken: [generateCommitMessage] throws the error of
    [createChatCompletion] unchanged.  A failed DNS lookup so reaches the
    caller as "Cannot resolve hostname ...". *)
Theorem uncoded_errors_rethrown (e : JsError) (w : World) :
  (forall k e', network k <> SocketError e') ->
  create initialWorld = (Throw e, w) ->
  code e = None
  /\ generate initialWorld = (Throw e, w).
Proof.
  intros Hnet Hcall.
  assert (Hnone : forall e0, @None JsError = Some e0 -> code e0 = None)
    by discriminate.
  assert (Hc : code e = None).
  { pose proof (loop_no_code (attemptRange (default 2 retries)) None initialWorld
                  Hnet Hnone) as H.
    rewrite call_loop in Hcall.
    destruct (retryLoop _ _ _ _ _ _ _ _ _ _ _) as [exit w']. simpl in H.
    destruct exit as [completion|e1|[e1|]].
    - discriminate.
    - injection Hcall as <- _. exact H.
    - injection Hcall as <- _. now apply H.
    - injection Hcall as <- _. reflexivity. }
  split; [exact Hc|].
  rewrite (generate_throw e w Hcall). unfold codeIs. now rewrite Hc.
Qed.

End Surfaced.

Lemma success_after_retries_witness :
  exists w,
    Runs.run Samples.legacyEngine MoreRuns.tlsThenEmptyChoices (Some 2)
    = (Ok Samples.emptyChoices, w)
    /\ sent w = 2%nat.
Proof.
  destruct (success_after_retries Samples.legacyEngine MoreRuns.tlsThenEmptyChoices
              (lit "sk-test") (lit "gpt-3.5-turbo") (lit "en") (lit "diff --git")
              1 50 [] 10000 None (Some 2) None 1
              {| statusCode := Some 200; statusMessage := Some (lit "OK") |}
              Samples.emptyChoicesBody Samples.emptyChoices)
    as [w [Hcall [Hsent _]]].
  - simpl. lia.
  - apply tlsFirst_retriedBefore.
  - reflexivity.
  - reflexivity.
  - vm_compute. reflexivity.
  - exists w. split; [exact Hcall | exact Hsent].
Defined.

Lemma coded_request_error_not_retried_witness :
  exists w,
    MoreRuns.generate Samples.legacyEngine MoreRuns.tlsThenReset (Some 2)
    = (Throw (newKnownError
                (lit "Connection was reset by the server. This might be due to network issues or server overload.")),
       w)
    /\ sent w = 2%nat.
Proof.
  destruct (coded_request_error_not_retried Samples.legacyEngine MoreRuns.tlsThenReset
              (lit "sk-test") (lit "gpt-3.5-turbo") (lit "en") (lit "diff --git")
              1 50 [] 10000 None (Some 2) None 1 Samples.handshakeError)
    as [w [Hcall [Hsent _]]].
  - simpl. lia.
  - apply tlsFirst_retriedBefore.
  - reflexivity.
  - vm_compute. reflexivity.
  - exists w. split; [exact Hcall | exact Hsent].
Defined.

Lemma uncoded_errors_rethrown_witness :
  fst (MoreRuns.generate Samples.legacyEngine MoreRuns.dnsFailures (Some 2))
  = Throw (newKnownError
             (lit "Cannot resolve hostname api.openai.com. Please check your internet connection."))
  /\ sent (snd (MoreRuns.generate Samples.legacyEngine MoreRuns.dnsFailures (Some 2)))
     = 1%nat.
Proof.
  destruct (uncoded_errors_rethrown Samples.legacyEngine MoreRuns.dnsFailures
              (lit "sk-test") (lit "gpt-3.5-turbo") (lit "en") (lit "diff --git")
              1 50 [] 10000 None (Some 2) None
              (newKnownError
                 (lit "Cannot resolve hostname api.openai.com. Please check your internet connection."))
              (snd (Runs.run Samples.legacyEngine MoreRuns.dnsFailures (Some 2))))
    as [_ Hgen].
  - intros k e'. discriminate.
  - vm_compute. reflexivity.
  - unfold MoreRuns.generate. rewrite Hgen. split; [reflexivity|].
    vm_compute. reflexivity.
Defined.

(** ** The messages handed to the caller *)

Module HygieneFacts.
Import JsString SanitizeSpec SanitizeFacts TrailingPeriodFacts.

(** A sanitised message is trimmed, free of newlines, and sanitising it
    again changes nothing. *)
Lemma sanitized_props (s : jsstring) :
  let m := sanitizeMessage s in
  startsClean m = true /\ endsClean m = true
  /\ Forall (fun c => isNewline c = false) m
  /\ sanitizeMessage m = m.
Proof.
  intros m. subst m.
  destruct (stripped_clean s) as [Hs [He Hn]].
  destruct (dropTrailingPeriod_keeps _ Hs He Hn) as [Hs' [He' [Hn' Hfix]]].
  unfold sanitizeMessage at 1 2 3.
  rewrite !(replaceWordDotEnd_spec (removeNewlines (trim s))).
  split; [exact Hs'|]. split; [exact He'|]. split; [exact Hn'|].
  unfold sanitizeMessage.
  rewrite (replaceWordDotEnd_spec (removeNewlines (trim s))).
  rewrite trim_fix by assumption.
  rewrite removeNewlines_fix by assumption.
  rewrite replaceWordDotEnd_spec. exact Hfix.
Qed.

Lemma add_length (s : JsSet.t) (x : jsstring) :
  (length (JsSet.add s x) <= S (length s))%nat.
Proof.
  unfold JsSet.add. destruct (JsSet.has s x); [lia|].
  rewrite length_app. simpl. lia.
Qed.

Lemma dedup_length (l : list jsstring) :
  (length (deduplicateMessages l) <= length l)%nat.
Proof.
  induction l as [|x l IH] using rev_ind; [simpl; lia|].
  rewrite DedupFacts.dedup_snoc, length_app. simpl.
  pose proof (add_length (deduplicateMessages l) x). lia.
Qed.

Lemma filter_length {A} (f : A -> bool) (l : list A) :
  (length (List.filter f l) <= length l)%nat.
Proof.
  induction l as [|x l IH]; simpl; [lia|]. destruct (f x); simpl; lia.
Qed.

End HygieneFacts.

Section Hygiene.

Variable rt : Runtime.
Variable network : nat -> TransportEvent.
Variables (apiKey model locale diff : jsstring) (completions maxLength : Z).
Variables (type : jsstring) (timeout : Z).
Variables (proxy : option jsstring) (retries : option Z) (insecureTls : option bool).

(** X8. Whatever the network and the engine do, a list returned by
    [generateCommitMessage] holds no message twice, and each message is
    trimmed, free of newline characters and unchanged by [sanitizeMessage];
    the list is built from the [choices] of the completion that
    [createChatCompletion] returned and is no longer than that array. *)
Theorem returned_messages_clean (msgs : list jsstring) (w : World) :
  generateCommitMessage rt network apiKey model locale diff completions
    maxLength type timeout proxy retries insecureTls initialWorld
  = (Ok msgs, w) ->
  List.NoDup msgs
  /\ Forall (fun m => SanitizeSpec.startsClean m = true
                      /\ SanitizeSpec.endsClean m = true
                      /\ Forall (fun c => JsString.isNewline c = false) m
                      /\ sanitizeMessage m = m) msgs
  /\ exists completion cs,
       createChatCompletion rt network apiKey
         (chatRequest rt model locale diff completions maxLength type)
         timeout proxy retries insecureTls initialWorld
       = (Ok completion, w)
       /\ choices completion = Some cs
       /\ (length msgs <= length cs)%nat.
Proof.
  unfold generateCommitMessage, mbind, IO_bind, mret, IO_ret.
  destruct (createChatCompletion _ _ _ _ _ _ _ _ _) as [[completion|e] w'].
  - destruct (choices completion) as [cs|] eqn:Hc.
    + intros H. injection H as <- <-. split; [apply DedupFacts.dedup_NoDup|].
      split.
      * apply List.Forall_forall. intros m Hm.
        apply (proj1 (DedupFacts.dedup_In _ m)) in Hm.
        apply in_map_iff in Hm as [choice [<- _]].
        apply HygieneFacts.sanitized_props.
      * exists completion, cs. split; [reflexivity|]. split; [exact Hc|].
        etransitivity; [apply HygieneFacts.dedup_length|].
        rewrite length_map. apply HygieneFacts.filter_length.
    + destruct (codeIs _ _); discriminate.
  - destruct (codeIs _ _); discriminate.
Qed.

End Hygiene.

Lemma returned_messages_clean_witness :
  exists w,
    MoreRuns.generate Samples.legacyEngine Runs.oneChoiceReply (Some 2)
    = (Ok [lit "Fix bug"], w)
    /\ sanitizeMessage (lit "Fix bug") = lit "Fix bug".
Proof.
  exists (snd (MoreRuns.generate Samples.legacyEngine Runs.oneChoiceReply (Some 2))).
  assert (E : MoreRuns.generate Samples.legacyEngine Runs.oneChoiceReply (Some 2)
              = (Ok [lit "Fix bug"],
                 snd (MoreRuns.generate Samples.legacyEngine Runs.oneChoiceReply (Some 2))))
    by (vm_compute; reflexivity).
  split; [exact E|].
  destruct (returned_messages_clean Samples.legacyEngine Runs.oneChoiceReply
              (lit "sk-test") (lit "gpt-3.5-turbo") (lit "en") (lit "diff --git")
              1 50 [] 10000 None (Some 2) None [lit "Fix bug"] _ E)
    as [_ [Hclean _]].
  inversion Hclean as [|m l [_ [_ [_ Hfix]]] _]. exact Hfix.
Defined.

(** ** What the post-processing helpers never do *)

Module OnlyRemovesFacts.
Import JsString SanitizeSpec SanitizeFacts TrailingPeriodFacts.

Lemma filter_sublist {A} (f : A -> bool) (l : list A) :
  List.filter f l `sublist_of` l.
Proof.
  induction l as [|x l IH]; simpl; [constructor|].
  destruct (f x); now constructor.
Qed.

Lemma trim_sublist (s : jsstring) : trim s `sublist_of` s.
Proof.
  destruct (trim_split s) as [l [r [E _]]]. rewrite E at 2.
  apply sublist_inserts_l, sublist_inserts_r. reflexivity.
Qed.

Lemma dropTrailingPeriod_sublist (t : jsstring) :
  dropTrailingPeriod t `sublist_of` t.
Proof.
  destruct (dropTrailingPeriod_cases t) as [->|[u [w [-> [_ ->]]]]];
    [reflexivity|].
  apply sublist_app; [reflexivity|]. repeat constructor.
Qed.

Lemma trimStart_all_white (s : jsstring) :
  Forall (fun c => isWhiteSpace c = true) s -> trimStart s = [].
Proof. induction 1 as [|c s Hc _ IH]; simpl; [reflexivity|]. now rewrite Hc. Qed.

Lemma dedup_sublist (l : list jsstring) : deduplicateMessages l `sublist_of` l.
Proof.
  induction l as [|x l IH] using rev_ind; [constructor|].
  rewrite DedupFacts.dedup_snoc. unfold JsSet.add.
  destruct (JsSet.has (deduplicateMessages l) x).
  - now apply sublist_inserts_r.
  - apply sublist_app; [exact IH | reflexivity].
Qed.

Lemma dedup_fix (l : list jsstring) : List.NoDup l -> deduplicateMessages l = l.
Proof.
  induction l as [|x l IH] using rev_ind; [reflexivity|]. intros H.
  apply List.NoDup_remove in H as [Hl Hx]. rewrite app_nil_r in Hl, Hx.
  rewrite DedupFacts.dedup_snoc, (IH Hl). unfold JsSet.add.
  destruct (JsSet.has l x) eqn:E; [|reflexivity].
  apply DedupFacts.has_In in E. contradiction.
Qed.

End OnlyRemovesFacts.

(** X9. [sanitizeMessage] only removes characters: its result is a
    subsequence of the input, never longer, and empty when the input is
    white space only.  The strings it leaves unchanged are exactly those that
    neither start nor end with white space, contain no newline character and
    do not end in a word character followed by a dot. *)
Theorem sanitizeMessage_only_removes (s : jsstring) :
  sanitizeMessage s `sublist_of` s
  /\ (length (sanitizeMessage s) <= length s)%nat
  /\ (Forall (fun c => JsString.isWhiteSpace c = true) s -> sanitizeMessage s = [])
  /\ (sanitizeMessage s = s <->
      SanitizeSpec.startsClean s = true /\ SanitizeSpec.endsClean s = true
      /\ Forall (fun c => JsString.isNewline c = false) s
      /\ SanitizeSpec.dropTrailingPeriod s = s).
Proof.
  assert (Hsub : sanitizeMessage s `sublist_of` s).
  { unfold sanitizeMessage. rewrite TrailingPeriodFacts.replaceWordDotEnd_spec.
    etransitivity; [apply OnlyRemovesFacts.dropTrailingPeriod_sublist|].
    etransitivity; [apply OnlyRemovesFacts.filter_sublist|].
    apply OnlyRemovesFacts.trim_sublist. }
  split; [exact Hsub|]. split; [now apply sublist_length|]. split.
  - intros Hall. unfold sanitizeMessage, JsString.trim.
    now rewrite (OnlyRemovesFacts.trimStart_all_white s Hall).
  - split.
    + intros E.
      destruct (HygieneFacts.sanitized_props s) as [Hs [He [Hn _]]].
      rewrite E in Hs, He, Hn. repeat split; try assumption.
      unfold sanitizeMessage in E.
      rewrite SanitizeFacts.trim_fix, SanitizeFacts.removeNewlines_fix in E
        by assumption.
      now rewrite TrailingPeriodFacts.replaceWordDotEnd_spec in E.
    + intros [Hs [He [Hn Hd]]]. unfold sanitizeMessage.
      rewrite SanitizeFacts.trim_fix, SanitizeFacts.removeNewlines_fix by assumption.
      now rewrite TrailingPeriodFacts.replaceWordDotEnd_spec.
Qed.

(** X10. [deduplicateMessages] only removes elements: its result is a
    subsequence of the input and never longer.  Applying it twice is applying
    it once, and the lists it leaves unchanged are exactly the lists without
    duplicates. *)
Theorem deduplicateMessages_only_removes (array : list jsstring) :
  deduplicateMessages array `sublist_of` array
  /\ (length (deduplicateMessages array) <= length array)%nat
  /\ deduplicateMessages (deduplicateMessages array) = deduplicateMessages array
  /\ (deduplicateMessages array = array <-> List.NoDup array).
Proof.
  split; [apply OnlyRemovesFacts.dedup_sublist|].
  split; [apply sublist_length, OnlyRemovesFacts.dedup_sublist|].
  split; [apply OnlyRemovesFacts.dedup_fix, DedupFacts.dedup_NoDup|].
  split.
  - intros <-. apply DedupFacts.dedup_NoDup.
  - apply OnlyRemovesFacts.dedup_fix.
Qed.

(** ** What every request of a call carries *)

Lemma lit_neq (a b : string) :
  JsString.eqb (lit a) (lit b) = false -> lit a <> lit b.
Proof. apply JsStringFacts.eqb_neq. Qed.

(** The headers [httpsPost] sends: the content headers are set by the
    transport, over whatever the caller passed under those names, and every
    other header is the caller's. *)
Lemma requestOptions_headers (rt : Runtime) (hostname path : jsstring)
    (headers0 : gmap jsstring jsstring) (postContent : jsstring) (timeout : Z)
    (proxy : option jsstring) (insecureTls : option bool) :
  let h := headers (requestOptions rt hostname path headers0 postContent timeout
                      proxy insecureTls) in
  h !! lit "Content-Type" = Some (lit "application/json")
  /\ h !! lit "Content-Length"
     = Some (JsString.ofZ (Buffer_byteLength rt postContent))
  /\ forall k, k <> lit "Content-Type" -> k <> lit "Content-Length" ->
               h !! k = headers0 !! k.
Proof.
  simpl. split; [|split].
  - rewrite lookup_insert_ne by (apply lit_neq; reflexivity).
    apply lookup_insert_eq.
  - apply lookup_insert_eq.
  - intros k H1 H2. now rewrite !lookup_insert_ne by congruence.
Qed.

(** X11. Whatever the network does, every request a call of
    [createChatCompletion] sends is the same POST to
    api.openai.com:443/v1/chat/completions with the serialised request as its
    body, the caller's timeout, [rejectUnauthorized = !insecureTls], a proxy
    agent exactly when a non-empty proxy is given, and exactly three
    headers: the bearer authorisation, the JSON content type and the content
    length. *)
Theorem every_request_well_formed (rt : Runtime) (network : nat -> TransportEvent)
    (apiKey : jsstring) (json : ChatCompletionRequest) (timeout : Z)
    (proxy : option jsstring) (retries : option Z) (insecureTls : option bool) :
  Forall (wellFormedRequest rt apiKey json timeout proxy insecureTls)
    (log (snd (createChatCompletion rt network apiKey json timeout proxy retries
                 insecureTls initialWorld))).
Proof.
  rewrite call_world.
  apply loop_effects; [| intros ms; exact I | constructor].
  unfold theRequest.
  destruct (requestOptions_headers rt apiHost apiPath
              {[ lit "Authorization" := lit "Bearer " ++ apiKey ]}
              (JSON_stringify rt json) timeout proxy insecureTls)
    as [Hct [Hcl Hother]].
  cbv zeta in Hct, Hcl, Hother.
  repeat split; try reflexivity; try assumption.
  - simpl. destruct proxy as [[|c p]|]; simpl; intros; (reflexivity || discriminate || exact I).
  - simpl. destruct proxy as [[|c p]|]; simpl; intros; (reflexivity || discriminate || exact I).
  - intros k H1 H2 H3. rewrite Hother by assumption.
    now apply lookup_singleton_ne.
Qed.

(** ** The SDK-backed variant: what it calls and what it rethrows *)

Lemma orTwo_nonzero (retries : option Z) : Sdk.orTwo retries <> 0.
Proof.
  unfold Sdk.orTwo. destruct retries as [r|]; [|lia].
  destruct (Z.eqb_spec r 0); lia.
Qed.

Lemma classify_rethrown (timeout : Z) (e e' : Sdk.Thrown) :
  Sdk.classify timeout e = Sdk.Rethrown e' ->
  e' = e
  /\ Sdk.instanceofAPIError e = false
  /\ Sdk.instanceofAPIConnectionError e = false
  /\ Sdk.instanceofOpenAIError e = false
  /\ Sdk.thrownCodeIs e (lit "ENOTFOUND") = false
  /\ (Sdk.instanceofError e
      && (JsString.includes (Sdk.thrownMessage e) (lit "timeout")
          || JsString.includes (Sdk.thrownMessage e) (lit "ETIMEDOUT")))%bool = false.
Proof.
  unfold Sdk.classify.
  destruct (Sdk.instanceofAPIError e).
  { destruct (Sdk.statusIs e 401); [discriminate|].
    destruct (Sdk.statusIs e 429); [discriminate|].
    destruct (Sdk.statusIs e 500); discriminate. }
  destruct (Sdk.instanceofAPIConnectionError e); [discriminate|].
  destruct (Sdk.instanceofError e
            && (JsString.includes (Sdk.thrownMessage e) (lit "timeout")
                || JsString.includes (Sdk.thrownMessage e) (lit "ETIMEDOUT")))%bool;
    [discriminate|].
  destruct (Sdk.instanceofOpenAIError e); [discriminate|].
  destruct (Sdk.thrownCodeIs e (lit "ENOTFOUND")); [discriminate|].
  intros H. injection H as <-. auto 10.
Qed.

Section SdkCalls.

Variable rt : Runtime.
Variable sdk : Sdk.Behaviour.
Variables (apiKey model locale diff : jsstring) (completions maxLength : Z).
Variables (type : jsstring) (timeout : Z).
Variables (proxy : option jsstring) (retries : option Z) (insecureTls : option bool).
Variable p0 : Sdk.Process.

Abbreviation sdkConfig := (sdkConfig apiKey timeout proxy retries).
Abbreviation sdkRun :=
  (Sdk.generateCommitMessage rt sdk apiKey model locale diff completions
     maxLength type timeout proxy retries insecureTls p0).

(** X12. The SDK-backed [generateCommitMessage] makes at most one SDK call,
    with the caller's key and timeout, a proxy agent exactly when a non-empty
    proxy is given, and a retry count that is never 0 ([retries || 2] turns
    both a missing and a zero [retries] into 2).  It returns a list only if
    that call was made and yielded a completion with a [choices] array; the
    list is then the deduplicated, sanitised contents of the choices. *)
Theorem sdk_single_call :
  exists new,
    Sdk.calls (snd sdkRun) = Sdk.calls p0 ++ new
    /\ (length new <= 1)%nat
    /\ Forall (fun c => Sdk.callConfig c = sdkConfig
                        /\ Sdk.maxRetries (Sdk.callConfig c) <> 0
                        /\ Sdk.callRequest c
                           = chatRequest rt model locale diff completions
                               maxLength type) new
    /\ forall msgs,
         fst sdkRun = inl msgs ->
         exists c completion cs,
           new = [c]
           /\ Sdk.create sdk sdkConfig (Sdk.callRequest c) (Sdk.callEnv c)
              = inl completion
           /\ choices completion = Some cs
           /\ msgs = deduplicateMessages
                       (List.map (fun choice => sanitizeMessage (contentOf choice))
                                 (List.filter hasContent cs)).
Proof.
  pose proof (orTwo_nonzero retries) as Hnz.
  unfold sdkConfig.
  repeat (sdk_step;
          match goal with
          | |- context [match ?x with _ => _ end] =>
              lazymatch x with
              | context [match _ with _ => _ end] => fail
              | _ => destruct x eqn:?
              end
          end);
    sdk_step;
    first
      [ exists []; rewrite app_nil_r; split; [reflexivity|];
        split; [simpl; lia|]; split; [constructor|];
        intros msgs Hm; discriminate
      | eexists; split; [reflexivity|]; split; [simpl; lia|];
        split; [repeat constructor; exact Hnz|];
        intros msgs Hm;
        first [ discriminate
              | injection Hm as <-;
                eexists; eexists; eexists;
                split; [reflexivity|]; split; [eassumption|];
                split; [eassumption | reflexivity] ] ].
Qed.

(** X13. The SDK-backed [generateCommitMessage] rethrows a caught value as
    it is only when the value passes none of the tests of the [catch] block:
    it is no API error, no connection error and no other SDK error, it is not
    an [Error] mentioning a timeout, and its code is not ENOTFOUND.  Every
    other failure reaches the caller as a [KnownError]. *)
Theorem sdk_rethrows_unrecognised_only (e : Sdk.Thrown) :
  fst sdkRun = inr (Sdk.Rethrown e) ->
  Sdk.instanceofAPIError e = false
  /\ Sdk.instanceofAPIConnectionError e = false
  /\ Sdk.instanceofOpenAIError e = false
  /\ Sdk.thrownCodeIs e (lit "ENOTFOUND") = false
  /\ (Sdk.instanceofError e
      && (JsString.includes (Sdk.thrownMessage e) (lit "timeout")
          || JsString.includes (Sdk.thrownMessage e) (lit "ETIMEDOUT")))%bool = false.
Proof.
  assert (Hcases : (exists msgs, fst sdkRun = inl msgs)
                   \/ exists e0, fst sdkRun = inr (Sdk.classify timeout e0)).
  { sdk_cases; eauto. }
  destruct Hcases as [[msgs ->]|[e0 ->]]; [discriminate|].
  intros H. injection H as H.
  destruct (classify_rethrown timeout e0 e H) as [-> Hrest]. exact Hrest.
Qed.

End SdkCalls.

Lemma sdk_rethrows_unrecognised_only_witness :
  fst (Sdk.generateCommitMessage Samples.legacyEngine SdkSamples.failingSdk
         (lit "sk-test") (lit "gpt-3.5-turbo") (lit "en") (lit "diff --git")
         1 50 [] 10000 None None (Some true) SdkSamples.freshProcess)
  = inr (Sdk.Rethrown SdkSamples.plainThrown)
  /\ Sdk.instanceofAPIError SdkSamples.plainThrown = false.
Proof.
  assert (E : fst (Sdk.generateCommitMessage Samples.legacyEngine
                     SdkSamples.failingSdk
                     (lit "sk-test") (lit "gpt-3.5-turbo") (lit "en")
                     (lit "diff --git") 1 50 [] 10000 None None (Some true)
                     SdkSamples.freshProcess)
              = inr (Sdk.Rethrown SdkSamples.plainThrown))
    by (vm_compute; reflexivity).
  split; [exact E|].
  apply (sdk_rethrows_unrecognised_only Samples.legacyEngine SdkSamples.failingSdk
           (lit "sk-test") (lit "gpt-3.5-turbo") (lit "en") (lit "diff --git")
           1 50 [] 10000 None None (Some true) SdkSamples.freshProcess
           SdkSamples.plainThrown E).
Defined.

(** ** Replies of the wrong shape, and error replies *)

Module IncludesFacts.
Import JsString JsStringFacts.

Lemma startsWith_split (s p : jsstring) :
  startsWith s p = true -> exists q, s = p ++ q.
Proof.
  revert s. induction p as [|x p IH]; intros s H.
  - now exists s.
  - destruct s as [|y s]; [discriminate|]. simpl in H.
    apply andb_true_iff in H as [Hx Hp]. apply N.eqb_eq in Hx. subst y.
    destruct (IH s Hp) as [q ->]. now exists q.
Qed.

Lemma includes_split (s sub : jsstring) :
  includes s sub = true -> exists p q, s = p ++ sub ++ q.
Proof.
  induction s as [|c s IH]; simpl; intros H.
  - rewrite orb_false_r in H. destruct (startsWith_split [] sub H) as [q Hq].
    now exists [], q.
  - apply orb_true_iff in H as [H|H].
    + destruct (startsWith_split (c :: s) sub H) as [q Hq]. now exists [], q.
    + destruct (IH H) as [p [q ->]]. now exists (c :: p), q.
Qed.

(** A text that occurs in [s] occurs in every string around [s]. *)
Lemma includes_within (a s b sub : jsstring) :
  includes s sub = true -> includes (a ++ s ++ b) sub = true.
Proof.
  intros H. destruct (includes_split s sub H) as [p [q ->]].
  replace (a ++ (p ++ sub ++ q) ++ b) with ((a ++ p) ++ sub ++ (q ++ b))
    by (now rewrite <- !app_assoc).
  apply includes_app.
Qed.

Lemma includes_nil (s : jsstring) : includes s [] = true.
Proof. destruct s; reflexivity. Qed.

End IncludesFacts.

(** The message for an error reply is the status line, the body when
    there is one, and for status 500 a hint. *)
Lemma apiErrorMessage_tail (response : IncomingMessage) (data : jsstring) :
  exists tail,
    apiErrorMessage response data
    = ((lit "OpenAI API Error: " ++ showStatus (statusCode response) ++ lit " - "
        ++ showOpt (statusMessage response))
       ++ (if JsString.truthy data then nl ++ nl ++ data else []))
      ++ tail.
Proof.
  unfold apiErrorMessage.
  assert (Hbase : (if JsString.truthy data
                   then (lit "OpenAI API Error: " ++ showStatus (statusCode response)
                         ++ lit " - " ++ showOpt (statusMessage response))
                        ++ nl ++ nl ++ data
                   else lit "OpenAI API Error: " ++ showStatus (statusCode response)
                        ++ lit " - " ++ showOpt (statusMessage response))
                  = (lit "OpenAI API Error: " ++ showStatus (statusCode response)
                     ++ lit " - " ++ showOpt (statusMessage response))
                    ++ (if JsString.truthy data then nl ++ nl ++ data else [])).
  { destruct (JsString.truthy data); [reflexivity | now rewrite app_nil_r]. }
  rewrite Hbase.
  destruct (statusCode response) as [c|]; [|exists []; now rewrite app_nil_r].
  destruct (Z.eq_dec c 500) as [->|Hne]; [eexists; reflexivity|].
  exists []. rewrite app_nil_r.
  destruct c as [|p|p]; try reflexivity.
  repeat (match goal with q : positive |- _ => destruct q as [q|q|] end;
          try reflexivity; try congruence).
Qed.

Section Replies.

Variable rt : Runtime.
Variable network : nat -> TransportEvent.
Variables (apiKey model locale diff : jsstring) (completions maxLength : Z).
Variables (type : jsstring) (timeout : Z).
Variables (proxy : option jsstring) (retries : option Z) (insecureTls : option bool).

Abbreviation generate3 :=
  (generateCommitMessage rt network apiKey model locale diff completions
     maxLength type timeout proxy retries insecureTls).
Abbreviation json3 := (chatRequest rt model locale diff completions maxLength type).
Abbreviation create3 :=
  (createChatCompletion rt network apiKey json3 timeout proxy retries insecureTls).

(** X14. A 2xx reply whose body parses to a value without a [choices]
    array is accepted by [createChatCompletion] and fails only in
    [generateCommitMessage], where calling [filter] on the missing array
    raises the engine's [TypeError]; that error is outside the retry loop, so
    no further request is sent and the caller receives the [TypeError]. *)
Theorem missing_choices_type_error (n : nat) (response : IncomingMessage)
    (data : jsstring) (completion : Completion) :
  Z.of_nat n <= default 2 retries ->
  retriedBefore rt timeout network n ->
  network n = ResponseEnd response data ->
  statusNotOk response = false ->
  JSON_parse rt data = inl completion ->
  choices completion = None ->
  exists w,
    create3 initialWorld = (Ok completion, w)
    /\ generate3 initialWorld
       = (Throw (mkError TypeError (undefinedMethodMessage rt (lit "filter"))
                         None None None), w)
    /\ sent w = S n.
Proof.
  intros Hn Hbefore Hev Hs Hp Hc.
  assert (Ho : outcome rt timeout (network n) = Ok completion).
  { unfold outcome. rewrite Hev. simpl. now rewrite Hs, Hp. }
  destruct (attempt_success rt network apiKey json3 timeout proxy retries
              insecureTls n completion Hn Hbefore Ho) as [w [Hcall Hsent]].
  exists w. split; [exact Hcall|]. split; [|exact Hsent].
  unfold generateCommitMessage, mbind, IO_bind. rewrite Hcall, Hc. reflexivity.
Qed.

(** X15. A reply with a missing status or a status outside 200..299 raises
    a [KnownError] whose message starts with "OpenAI API Error: <status> - "
    and contains the body.  The test for authentication failures looks for
    the text 401 anywhere in that message: when the body mentions 401 the
    call ends at that attempt, whatever the status is and even when the
    message also carries a retry marker. *)
Theorem error_reply_mentioning_401 (n : nat) (response : IncomingMessage)
    (data : jsstring) :
  Z.of_nat n <= default 2 retries ->
  retriedBefore rt timeout network n ->
  network n = ResponseEnd response data ->
  statusNotOk response = true ->
  let e := newKnownError (apiErrorMessage response data) in
  JsString.startsWith (message e)
    (lit "OpenAI API Error: " ++ showStatus (statusCode response) ++ lit " - ")
  = true
  /\ JsString.includes (message e) data = true
  /\ (JsString.includes data (lit "401") = true ->
      retried e = false
      /\ exists w, create3 initialWorld = (Throw e, w) /\ sent w = S n).
Proof.
  intros Hn Hbefore Hev Hs e.
  assert (Hmsg : exists tail,
             message e
             = (lit "OpenAI API Error: " ++ showStatus (statusCode response)
                ++ lit " - ")
               ++ showOpt (statusMessage response)
               ++ (if JsString.truthy data then nl ++ nl ++ data else [])
               ++ tail).
  { destruct (apiErrorMessage_tail response data) as [tail Ht].
    exists tail. subst e. cbn [message newKnownError]. rewrite Ht.
    destruct (JsString.truthy data); now rewrite <- ?app_assoc, ?app_nil_l. }
  destruct Hmsg as [tail Hmsg].
  assert (Hincl : JsString.includes (message e) data = true).
  { rewrite Hmsg. destruct data as [|c data]; [apply IncludesFacts.includes_nil|].
    cbn [JsString.truthy].
    replace ((lit "OpenAI API Error: " ++ showStatus (statusCode response)
              ++ lit " - ")
             ++ showOpt (statusMessage response)
             ++ (nl ++ nl ++ c :: data) ++ tail)
      with (((lit "OpenAI API Error: " ++ showStatus (statusCode response)
              ++ lit " - ")
             ++ showOpt (statusMessage response) ++ nl ++ nl)
            ++ (c :: data) ++ tail)
      by (now rewrite <- !app_assoc).
    apply JsStringFacts.includes_app. }
  split; [rewrite Hmsg; apply JsStringFacts.startsWith_app|].
  split; [exact Hincl|].
  intros H401.
  assert (Hauth : isAuthError e = true).
  { unfold isAuthError. cbn [instanceofKnownError errClass newKnownError andb].
    destruct (IncludesFacts.includes_split _ _ Hincl) as [a [b Hab]].
    fold e. rewrite Hab. now apply IncludesFacts.includes_within. }
  split.
  - unfold retried. now rewrite Hauth.
  - destruct (attempt_final rt network apiKey json3 timeout proxy retries
                insecureTls n e Hn Hbefore) as [w [Hcall [Hsent _]]].
    + unfold outcome. rewrite Hev. simpl. now rewrite Hs.
    + now left.
    + exists w. split; [exact Hcall | exact Hsent].
Qed.

(** The markers the retry test finds in a text are found in every text
    around it. *)
Lemma isNetworkError_within (a s b : jsstring) :
  isNetworkError s = true -> isNetworkError (a ++ s ++ b) = true.
Proof.
  unfold isNetworkError. intros H.
  repeat (apply orb_true_iff in H as [H|H]);
    rewrite (IncludesFacts.includes_within a s b _ H);
    rewrite ?orb_true_r; reflexivity.
Qed.

(** The message of the error raised for an error reply contains the markers
    of the body. *)
Lemma marked_body_marked_message (response : IncomingMessage) (data : jsstring) :
  isNetworkError data = true ->
  isNetworkError (apiErrorMessage response data) = true.
Proof.
  intros H.
  assert (Ht : JsString.truthy data = true)
    by (destruct data; [vm_compute in H; discriminate | reflexivity]).
  destruct (apiErrorMessage_tail response data) as [tail E].
  rewrite Ht in E. cbv iota in E.
  assert (Hshape : forall x d t : jsstring,
             (x ++ nl ++ nl ++ d) ++ t = (x ++ nl ++ nl) ++ d ++ t)
    by (intros; now rewrite <- !app_assoc).
  rewrite E, Hshape. now apply isNetworkError_within.
Qed.

(** X6. The failures the client does retry.  An error reply (status
    missing or outside 200..299) whose body names one of the markers TLS,
    socket disconnected, ECONNRESET, ETIMEDOUT or ENOTFOUND, and whose message
    does not contain 401, is retried whatever its status is: when attempts
    remain, the call sleeps for the back-off delay of the attempt and sends
    the next request. *)
Theorem marked_error_reply_retried (n : nat) (response : IncomingMessage)
    (data : jsstring) :
  Z.of_nat n < default 2 retries ->
  retriedBefore rt timeout network n ->
  network n = ResponseEnd response data ->
  statusNotOk response = true ->
  isNetworkError data = true ->
  JsString.includes (apiErrorMessage response data) (lit "401") = false ->
  retried (newKnownError (apiErrorMessage response data)) = true
  /\ exists tail,
       log (snd (create3 initialWorld))
       = flat_map (fun a => [theRequest rt apiKey json3 timeout proxy insecureTls;
                             Sleep (Z.min (1000 * 2 ^ Z.of_nat a) 5000)])
                  (seq 0 (S n))
         ++ theRequest rt apiKey json3 timeout proxy insecureTls :: tail.
Proof.
  intros Hn Hbefore Hev Hs Hmark H401.
  assert (Hret : retried (newKnownError (apiErrorMessage response data)) = true).
  { unfold retried, isAuthError.
    cbn [instanceofKnownError errClass message newKnownError andb].
    rewrite H401. now apply marked_body_marked_message. }
  split; [exact Hret|].
  assert (Hnext : retriedBefore rt timeout network (S n)).
  { intros k Hk. destruct (Nat.eq_dec k n) as [->|Hne].
    - exists (newKnownError (apiErrorMessage response data)). split; [|exact Hret].
      unfold outcome. rewrite Hev. simpl. now rewrite Hs.
    - apply Hbefore. lia. }
  destruct (reach_attempt rt network apiKey json3 timeout proxy retries
              insecureTls (S n)) as [last [w [E [_ Hlog]]]].
  { lia. }
  { exact Hnext. }
  destruct (loop_log rt network apiKey json3 timeout proxy (default 2 retries)
              insecureTls
              (Z.of_nat (S n)
               :: List.map Z.of_nat (seq (S (S n)) (Z.to_nat (default 2 retries) - S n)))
              last w) as [tail [Htail Hreq]].
  destruct Hreq as [tail' ->]; [discriminate|].
  exists tail'. rewrite call_loop, E.
  destruct (retryLoop _ _ _ _ _ _ _ _ _ last w) as [exit w'].
  simpl in Htail |- *. rewrite Htail, Hlog. reflexivity.
Qed.

End Replies.

Lemma marked_error_reply_retried_witness :
  retried Samples.gatewayError = true
  /\ exists tail,
       List.map (fun e => match e with Sleep ms => Some ms | Request _ _ => None end)
         (log (snd (Runs.run Samples.legacyEngine Runs.tlsFailures (Some 2))))
       = [None; Some 1000; None] ++ tail.
Proof.
  destruct (marked_error_reply_retried Samples.legacyEngine Runs.tlsFailures
              (lit "sk-test") (lit "gpt-3.5-turbo") (lit "en") (lit "diff --git")
              1 50 [] 10000 None (Some 2) None 0
              Samples.gatewayResponse Samples.gatewayBody)
    as [Hr [tail Hlog]].
  - simpl. lia.
  - intros k Hk. lia.
  - reflexivity.
  - reflexivity.
  - vm_compute. reflexivity.
  - vm_compute. reflexivity.
  - split; [exact Hr|].
    exists (List.map (fun e => match e with Sleep ms => Some ms | Request _ _ => None end)
                     tail).
    unfold Runs.run, Samples.aRequest. rewrite Hlog. reflexivity.
Defined.

Lemma missing_choices_type_error_witness :
  exists w,
    generateCommitMessage ShapeSamples.engine ShapeSamples.noChoicesReply
      (lit "sk-test") (lit "gpt-3.5-turbo") (lit "en") (lit "diff --git") 1 50 []
      10000 None (Some 2) None initialWorld
    = (Throw (mkError TypeError
                (lit "Cannot read properties of undefined (reading 'filter')")
                None None None), w)
    /\ sent w = 1%nat.
Proof.
  destruct (missing_choices_type_error ShapeSamples.engine
              ShapeSamples.noChoicesReply
              (lit "sk-test") (lit "gpt-3.5-turbo") (lit "en") (lit "diff --git")
              1 50 [] 10000 None (Some 2) None 0
              {| statusCode := Some 200; statusMessage := Some (lit "OK") |}
              ShapeSamples.noChoicesBody ShapeSamples.noChoices)
    as [w [_ [Hgen Hsent]]].
  - simpl. lia.
  - intros k Hk. lia.
  - reflexivity.
  - reflexivity.
  - vm_compute. reflexivity.
  - reflexivity.
  - exists w. split; [exact Hgen | exact Hsent].
Defined.

Lemma error_reply_mentioning_401_witness :
  isNetworkError (lit "upstream TLS error, request 4012") = true
  /\ exists w,
       createChatCompletion Samples.legacyEngine ShapeSamples.proxyErrorReply
         (lit "sk-test") Samples.aRequest 10000 None (Some 2) None initialWorld
       = (Throw (newKnownError
                   (lit "OpenAI API Error: 503 - Service Unavailable" ++ nl ++ nl
                    ++ lit "upstream TLS error, request 4012")), w)
       /\ sent w = 1%nat.
Proof.
  split; [vm_compute; reflexivity|].
  destruct (error_reply_mentioning_401 Samples.legacyEngine
              ShapeSamples.proxyErrorReply
              (lit "sk-test") (lit "gpt-3.5-turbo") (lit "en") (lit "diff --git")
              1 50 [] 10000 None (Some 2) None 0
              {| statusCode := Some 503;
                 statusMessage := Some (lit "Service Unavailable") |}
              (lit "upstream TLS error, request 4012"))
    as [_ [_ Hfinal]].
  - simpl. lia.
  - intros k Hk. lia.
  - reflexivity.
  - reflexivity.
  - destruct Hfinal as [_ [w [Hcall Hsent]]]; [vm_compute; reflexivity|].
    exists w. split; [exact Hcall | exact Hsent].
Defined.
